(** * Scheduling of deployment flow runs

    A shallow embedding of [schedule_runs], [_generate_scheduled_flow_runs]
    and [_insert_scheduled_flow_runs] of
    [src/prefect/orion/models/deployments.py], together with the part of the
    database session these functions talk to, and the properties of the
    scheduling core proved on it. The deployment repository of the same file
    (create, read, list, count, delete) follows, with its own properties and
    those that link it to the scheduling.

    Conventions of the embedding:
    - a UUID is a natural number; [uuid4] draws from a counter, so an
      identifier it returns was never returned before;
    - a datetime is an integer (seconds since the epoch), printed with
      [pretty] where the source formats it into a string;
    - the three tables are lists of rows in insertion order;
    - every coroutine is a function in the monad [M]: it threads the
      [World] (tables, statement log, UUID source, clock) and may raise. *)

From Stdlib Require Import Ascii.
From stdpp Require Import base decidable option list strings pretty gmap
  sorting.

Open Scope string_scope.
Open Scope list_scope.
Open Scope Z_scope.

Abbreviation UUID := nat (only parsing).
Abbreviation DateTime := Z (only parsing).

(** ** Data model *)

(** [schemas.states.StateType]. *)
Inductive StateType :=
  SCHEDULED | PENDING | RUNNING | COMPLETED | FAILED | CANCELLED.

Global Instance StateType_eq_dec : EqDecision StateType.
Proof. solve_decision. Defined.

(** The state payload carried by a run candidate: the fields the source sets. *)
Record State := {
  st_type : StateType;
  st_message : string;
  st_scheduled_time : DateTime
}.

(** Modelled from the spec: [schemas.states.Scheduled] is not under src; the
    spec gives the initial lifecycle state payload as kind = SCHEDULED,
    message, scheduled timestamp. *)
Definition Scheduled (scheduled_time : DateTime) (message : string) : State :=
  {| st_type := SCHEDULED;
     st_message := message;
     st_scheduled_time := scheduled_time |}.

(** The schedule capability: [get_dates n start end_]. *)
Record Schedule := { get_dates : Z → DateTime → DateTime → list DateTime }.

(** A row of the deployment table, as read by [session.get]. *)
Record Deployment := {
  dep_id : UUID;
  dep_flow_id : option UUID;
  dep_schedule : option Schedule;
  dep_is_schedule_active : bool;
  dep_tags : list string;
  dep_parameters : gmap string string
}.

(** [schemas.core.FlowRun] with the fields line 333-347 pass, and its [id]. *)
Record FlowRun := {
  fr_id : UUID;
  fr_flow_id : UUID;
  fr_deployment_id : UUID;
  fr_parameters : gmap string string;
  fr_idempotency_key : string;
  fr_tags : list string;
  fr_auto_scheduled : bool;
  fr_state : State;
  fr_state_type : StateType;
  fr_next_scheduled_start_time : DateTime;
  fr_expected_start_time : DateTime
}.

(** A row of the flow_run table: the run's columns and its [state_id]. *)
Record FlowRunRow := {
  row_run : FlowRun;
  row_state_id : option UUID
}.

(** A row of the flow_run_state table:
    [{"id": uuid4(), "flow_run_id": r.id, **r.state.dict()}]. *)
Record FlowRunStateRow := {
  srow_id : UUID;
  srow_flow_run_id : UUID;
  srow_state : State
}.

(** What [session.get] and [session.execute] were asked to do, in order. *)
Inductive Statement :=
| SessionGet (deployment_id : UUID)
| InsertFlowRuns (rows : list FlowRun)
| SelectInsertedRows (ids : list UUID)
| InsertFlowRunStates (rows : list FlowRunStateRow)
| SetStateId (inserted_flow_run_ids : list UUID).

Record World := {
  deployment_table : list Deployment;
  flow_run_table : list FlowRunRow;
  flow_run_state_table : list FlowRunStateRow;
  executed : list Statement;
  uuid_source : nat;
  clock : DateTime
}.

(** [prefect.settings.orion.services]. *)
Record Settings := {
  scheduler_max_runs : Z;
  scheduler_max_scheduled_time : Z
}.

Inductive Error := InvalidDeploymentState | IntegrityError.

(** ** The monad of coroutines over a session *)

Definition M (A : Type) : Type := World → (Error + A) * World.

Definition ret {A} (a : A) : M A := λ w, (inr a, w).

Definition raise {A} (e : Error) : M A := λ w, (inl e, w).

Definition bind {A B} (m : M A) (k : A → M B) : M B :=
  λ w, match m w with
       | (inl e, w') => (inl e, w')
       | (inr a, w') => k a w'
       end.

Notation "'let*' x := m 'in' k" := (bind m (λ x, k))
  (at level 10, x name, m at level 100, k at level 200,
   format "'let*'  x  :=  m  'in' '//' k").

(** A [for] loop or list comprehension whose body is effectful. *)
Fixpoint for_each {A B} (body : A → M B) (l : list A) : M (list B) :=
  match l with
  | [] => ret []
  | x :: l' =>
      let* y := body x in
      let* ys := for_each body l' in
      ret (y :: ys)
  end.

(** ** World updates *)

Definition log (s : Statement) (w : World) : World :=
  {| deployment_table := deployment_table w;
     flow_run_table := flow_run_table w;
     flow_run_state_table := flow_run_state_table w;
     executed := executed w ++ [s];
     uuid_source := uuid_source w;
     clock := clock w |}.

Definition set_flow_run_table (t : list FlowRunRow) (w : World) : World :=
  {| deployment_table := deployment_table w;
     flow_run_table := t;
     flow_run_state_table := flow_run_state_table w;
     executed := executed w;
     uuid_source := uuid_source w;
     clock := clock w |}.

Definition set_flow_run_state_table (t : list FlowRunStateRow) (w : World)
  : World :=
  {| deployment_table := deployment_table w;
     flow_run_table := flow_run_table w;
     flow_run_state_table := t;
     executed := executed w;
     uuid_source := uuid_source w;
     clock := clock w |}.

Definition set_clock (c : DateTime) (w : World) : World :=
  {| deployment_table := deployment_table w;
     flow_run_table := flow_run_table w;
     flow_run_state_table := flow_run_state_table w;
     executed := executed w;
     uuid_source := uuid_source w;
     clock := c |}.

(** ** Primitive effects *)

(** [uuid4()]. *)
Definition uuid4 : M UUID :=
  λ w, (inr (uuid_source w),
        {| deployment_table := deployment_table w;
           flow_run_table := flow_run_table w;
           flow_run_state_table := flow_run_state_table w;
           executed := executed w;
           uuid_source := S (uuid_source w);
           clock := clock w |}).

(** [pendulum.now("UTC")]. *)
Definition now : M DateTime := λ w, (inr (clock w), w).

(** [session.get(db_config.Deployment, deployment_id)]. *)
Definition session_get (deployment_id : UUID) : M (option Deployment) :=
  λ w, (inr (find (λ d, bool_decide (dep_id d = deployment_id))
                  (deployment_table w)),
        log (SessionGet deployment_id) w).

(** ** The statements of [_insert_scheduled_flow_runs] *)

Definition row_id (row : FlowRunRow) : UUID := fr_id (row_run row).

(** Modelled from the spec: [db_config.flow_run_unique_upsert_columns] is not
    under src; the spec keys the conflict policy on the idempotency key. *)
Definition flow_run_unique_upsert_columns (r : FlowRun) : string :=
  fr_idempotency_key r.

Definition row_key (row : FlowRunRow) : string :=
  flow_run_unique_upsert_columns (row_run row).

(** [insert.on_conflict_do_nothing(index_elements=...)] over a batch: a row
    whose upsert columns are taken is skipped; any other row is appended with
    no state linked, unless its primary key is taken, which the conflict clause
    does not cover and the database refuses. *)
Fixpoint insert_on_conflict_do_nothing
    (table : list FlowRunRow) (rows : list FlowRun)
  : option (list FlowRunRow) :=
  match rows with
  | [] => Some table
  | r :: rows' =>
      if decide (flow_run_unique_upsert_columns r ∈ row_key <$> table)
      then insert_on_conflict_do_nothing table rows'
      else if decide (fr_id r ∈ row_id <$> table)
      then None
      else insert_on_conflict_do_nothing
             (table ++ [{| row_run := r; row_state_id := None |}]) rows'
  end.

(** [FlowRun LEFT OUTER JOIN FlowRunState ON FlowRun.id = flow_run_id]. *)
Definition left_outer_join
    (runs : list FlowRunRow) (states : list FlowRunStateRow)
  : list (FlowRunRow * option FlowRunStateRow) :=
  row ← runs;
  match filter (λ s, srow_flow_run_id s = row_id row) states with
  | [] => [(row, None)]
  | matched => (λ s, (row, Some s)) <$> matched
  end.

(** The [inserted_rows] query:
    [WHERE FlowRun.id IN ids AND FlowRunState.id IS NULL], selecting
    [FlowRun.id]. *)
Definition inserted_rows (ids : list UUID)
    (runs : list FlowRunRow) (states : list FlowRunStateRow) : list UUID :=
  (λ p, row_id p.1)
    <$> filter (λ p, row_id p.1 ∈ ids ∧ p.2 = None)
               (left_outer_join runs states).

(** [db_config.FlowRunState.__table__.insert()] over a batch: a plain insert,
    refused on a taken primary key. *)
Fixpoint insert_flow_run_state_rows
    (table : list FlowRunStateRow) (rows : list FlowRunStateRow)
  : option (list FlowRunStateRow) :=
  match rows with
  | [] => Some table
  | s :: rows' =>
      if decide (srow_id s ∈ srow_id <$> table)
      then None
      else insert_flow_run_state_rows (table ++ [s]) rows'
  end.

(** Modelled from the spec:
    [db_config.set_state_id_on_inserted_flow_runs_statement] is not under src;
    the spec says the statement updates the current-state pointer of each
    newly inserted run to reference the state record written for it. *)
Definition set_state_id_on_inserted_flow_runs_statement
    (inserted_flow_run_ids : list UUID)
    (insert_flow_run_states : list FlowRunStateRow)
    (table : list FlowRunRow) : list FlowRunRow :=
  (λ row,
     if decide (row_id row ∈ inserted_flow_run_ids)
     then {| row_run := row_run row;
             row_state_id :=
               srow_id <$> head (filter (λ s, srow_flow_run_id s = row_id row)
                                        insert_flow_run_states) |}
     else row) <$> table.

(** [session.execute] of each statement. *)
Definition execute_insert_flow_runs (rows : list FlowRun) : M () :=
  λ w, match insert_on_conflict_do_nothing (flow_run_table w) rows with
       | Some t => (inr (), set_flow_run_table t (log (InsertFlowRuns rows) w))
       | None => (inl IntegrityError, log (InsertFlowRuns rows) w)
       end.

Definition execute_inserted_rows (ids : list UUID) : M (list UUID) :=
  λ w, (inr (inserted_rows ids (flow_run_table w) (flow_run_state_table w)),
        log (SelectInsertedRows ids) w).

Definition execute_insert_flow_run_states (rows : list FlowRunStateRow)
  : M () :=
  λ w, match insert_flow_run_state_rows (flow_run_state_table w) rows with
       | Some t =>
           (inr (), set_flow_run_state_table t (log (InsertFlowRunStates rows) w))
       | None => (inl IntegrityError, log (InsertFlowRunStates rows) w)
       end.

Definition execute_set_state_id
    (inserted_flow_run_ids : list UUID)
    (insert_flow_run_states : list FlowRunStateRow) : M () :=
  λ w, (inr (),
        set_flow_run_table
          (set_state_id_on_inserted_flow_runs_statement
             inserted_flow_run_ids insert_flow_run_states (flow_run_table w))
          (log (SetStateId inserted_flow_run_ids) w)).

(** ** The scheduling functions *)

(** Modelled from the spec: the constructor of [schemas.core.FlowRun] is not
    under src; the spec says building a candidate fails with
    InvalidDeploymentState when the deployment snapshot lacks a [flow_id], and
    that the candidate's [id] is a generated fresh identifier. *)
Definition FlowRun_init
    (flow_id : option UUID) (deployment_id : UUID)
    (parameters : gmap string string) (idempotency_key : string)
    (tags : list string) (auto_scheduled : bool) (state : State)
    (state_type : StateType)
    (next_scheduled_start_time expected_start_time : DateTime) : M FlowRun :=
  match flow_id with
  | None => raise InvalidDeploymentState
  | Some f =>
      let* i := uuid4 in
      ret {| fr_id := i;
             fr_flow_id := f;
             fr_deployment_id := deployment_id;
             fr_parameters := parameters;
             fr_idempotency_key := idempotency_key;
             fr_tags := tags;
             fr_auto_scheduled := auto_scheduled;
             fr_state := state;
             fr_state_type := state_type;
             fr_next_scheduled_start_time := next_scheduled_start_time;
             fr_expected_start_time := expected_start_time |}
  end.

(** [f"scheduled {deployment.id} {date}"]. *)
Definition scheduled_key (deployment_id : UUID) (date : DateTime) : string :=
  "scheduled " +:+ pretty deployment_id +:+ " " +:+ pretty date.

(** The body of the loop of line 332-348: one candidate per date. *)
Definition scheduled_flow_run
    (deployment : Deployment) (deployment_id : UUID) (date : DateTime)
  : M FlowRun :=
  FlowRun_init
    (dep_flow_id deployment)
    deployment_id
    (dep_parameters deployment)
    (scheduled_key (dep_id deployment) date)
    ("auto-scheduled" :: dep_tags deployment)
    true
    (Scheduled date "Flow run scheduled")
    SCHEDULED
    date
    date.

Definition _generate_scheduled_flow_runs
    (deployment_id : UUID) (start_time end_time : DateTime) (max_runs : Z)
  : M (list FlowRun) :=
  let* deployment := session_get deployment_id in
  match deployment with
  | None => ret []
  | Some d =>
      match dep_schedule d with
      | None => ret []
      | Some schedule =>
          if negb (dep_is_schedule_active d) then ret []
          else
            let dates := get_dates schedule max_runs start_time end_time in
            for_each (scheduled_flow_run d deployment_id) dates
      end
  end.

Definition _insert_scheduled_flow_runs (runs : list FlowRun)
  : M (list FlowRun) :=
  match runs with
  | [] => ret []
  | _ :: _ =>
      let* _ := execute_insert_flow_runs runs in
      let* inserted_flow_run_ids := execute_inserted_rows (fr_id <$> runs) in
      let* insert_flow_run_states :=
        for_each
          (λ r, let* i := uuid4 in
                ret {| srow_id := i;
                       srow_flow_run_id := fr_id r;
                       srow_state := fr_state r |})
          (filter (λ r, fr_id r ∈ inserted_flow_run_ids) runs) in
      let* _ :=
        match insert_flow_run_states with
        | [] => ret ()
        | _ :: _ =>
            let* _ := execute_insert_flow_run_states insert_flow_run_states in
            execute_set_state_id inserted_flow_run_ids insert_flow_run_states
        end in
      ret (filter (λ r, fr_id r ∈ inserted_flow_run_ids) runs)
  end.

Definition schedule_runs
    (settings : Settings) (deployment_id : UUID)
    (start_time end_time : option DateTime) (max_runs : option Z)
  : M (list FlowRun) :=
  let max_runs := default (scheduler_max_runs settings) max_runs in
  let* start_time :=
    match start_time with None => now | Some t => ret t end in
  let end_time :=
    default (start_time + scheduler_max_scheduled_time settings) end_time in
  let* runs :=
    _generate_scheduled_flow_runs deployment_id start_time end_time max_runs in
  _insert_scheduled_flow_runs runs.

(** ** Derived descriptions used to state results *)

(** The world after [n] further draws of [uuid4]. *)
Definition advance_uuid (n : nat) (w : World) : World :=
  {| deployment_table := deployment_table w;
     flow_run_table := flow_run_table w;
     flow_run_state_table := flow_run_state_table w;
     executed := executed w;
     uuid_source := (uuid_source w + n)%nat;
     clock := clock w |}.

(** Every identifier stored so far was drawn before: the freshness that
    [uuid4] gives. *)
Definition fresh_ids (w : World) : Prop :=
  (∀ row, row ∈ flow_run_table w → (row_id row < uuid_source w)%nat) ∧
  (∀ s, s ∈ flow_run_state_table w →
        (srow_id s < uuid_source w)%nat ∧
        (srow_flow_run_id s < uuid_source w)%nat).

(** The unique index on the upsert columns holds of the flow_run table. *)
Definition unique_keys (w : World) : Prop :=
  NoDup (row_key <$> flow_run_table w).

(** The scheduled timestamp of a run lies in the window. *)
Definition in_window (start_time end_time : DateTime) (r : FlowRun) : Prop :=
  start_time ≤ fr_next_scheduled_start_time r < end_time ∧
  fr_expected_start_time r = fr_next_scheduled_start_time r ∧
  st_scheduled_time (fr_state r) = fr_next_scheduled_start_time r.

(** What the claims assume of the opaque enumerator, at one call. *)
Definition enumerator_contract
    (schedule : Schedule) (n : Z) (start_time end_time : DateTime) : Prop :=
  Z.of_nat (length (get_dates schedule n start_time end_time)) ≤ n ∧
  Forall (λ d, start_time ≤ d < end_time)
         (get_dates schedule n start_time end_time).

(** The run has a state record of kind SCHEDULED at its own timestamp, and
    every flow_run row of that id points to it. *)
Definition linked_scheduled (w : World) (r : FlowRun) : Prop :=
  ∃ s, s ∈ flow_run_state_table w ∧
       srow_flow_run_id s = fr_id r ∧
       st_type (srow_state s) = SCHEDULED ∧
       st_scheduled_time (srow_state s) = fr_next_scheduled_start_time r ∧
       (∃ row, row ∈ flow_run_table w ∧ row_id row = fr_id r) ∧
       (∀ row, row ∈ flow_run_table w → row_id row = fr_id r →
               row_state_id row = Some (srow_id s)).

(** The candidate the loop body builds from identifier [i] and [date]. *)
Definition candidate
    (d : Deployment) (deployment_id f i : UUID) (date : DateTime) : FlowRun :=
  {| fr_id := i;
     fr_flow_id := f;
     fr_deployment_id := deployment_id;
     fr_parameters := dep_parameters d;
     fr_idempotency_key := scheduled_key (dep_id d) date;
     fr_tags := "auto-scheduled" :: dep_tags d;
     fr_auto_scheduled := true;
     fr_state := Scheduled date "Flow run scheduled";
     fr_state_type := SCHEDULED;
     fr_next_scheduled_start_time := date;
     fr_expected_start_time := date |}.

(** The candidates of a list of dates, identifiers drawn from [i] on. *)
Fixpoint candidates_from
    (d : Deployment) (deployment_id f i : UUID) (dates : list DateTime)
  : list FlowRun :=
  match dates with
  | [] => []
  | date :: dates' =>
      candidate d deployment_id f i date
        :: candidates_from d deployment_id f (S i) dates'
  end.

(** The state rows written for a list of runs, identifiers drawn from [i] on. *)
Fixpoint state_rows_from (i : UUID) (runs : list FlowRun)
  : list FlowRunStateRow :=
  match runs with
  | [] => []
  | r :: runs' =>
      {| srow_id := i; srow_flow_run_id := fr_id r; srow_state := fr_state r |}
        :: state_rows_from (S i) runs'
  end.

(** The rows of a batch that the conflict-ignoring insert accepts, given the
    upsert keys already taken. *)
Fixpoint accepted (keys : list string) (rows : list FlowRun) : list FlowRun :=
  match rows with
  | [] => []
  | r :: rows' =>
      if decide (flow_run_unique_upsert_columns r ∈ keys)
      then accepted keys rows'
      else r :: accepted (keys ++ [flow_run_unique_upsert_columns r]) rows'
  end.

Definition unlinked_row (r : FlowRun) : FlowRunRow :=
  {| row_run := r; row_state_id := None |}.

(** The deployment [session.get] finds. *)
Definition lookup_deployment (w : World) (deployment_id : UUID)
  : option Deployment :=
  find (λ d, bool_decide (dep_id d = deployment_id)) (deployment_table w).

(** The candidates carry identifiers already drawn, distinct, and not yet
    stored: what a list built by [_generate_scheduled_flow_runs] satisfies. *)
Definition fresh_candidates (w : World) (runs : list FlowRun) : Prop :=
  NoDup (fr_id <$> runs) ∧
  ∀ r, r ∈ runs →
       (fr_id r < uuid_source w)%nat ∧
       (fr_id r ∉ row_id <$> flow_run_table w) ∧
       fr_id r ∉ srow_flow_run_id <$> flow_run_state_table w.

(** Executable forms of the freshness conditions. *)
Definition fresh_idsb (w : World) : bool :=
  forallb (λ row, Nat.ltb (row_id row) (uuid_source w)) (flow_run_table w)
  && forallb (λ s, Nat.ltb (srow_id s) (uuid_source w)
                    && Nat.ltb (srow_flow_run_id s) (uuid_source w))
             (flow_run_state_table w).

Definition fresh_candidatesb (w : World) (runs : list FlowRun) : bool :=
  bool_decide (NoDup (fr_id <$> runs))
  && forallb (λ r, Nat.ltb (fr_id r) (uuid_source w)
                    && bool_decide (fr_id r ∉ row_id <$> flow_run_table w)
                    && bool_decide (fr_id r
                                    ∉ srow_flow_run_id
                                        <$> flow_run_state_table w))
             runs.

(** ** Concrete data used to run the model *)

(** A schedule over an explicit list of dates: at most [n] of those that lie
    in the window, in list order. *)
Definition dates_schedule (dates : list DateTime) : Schedule :=
  {| get_dates n start end_ :=
       take (Z.to_nat n)
            (filter (λ d, start ≤ d ∧ d < end_) dates) |}.

Definition hourly3 : Schedule := dates_schedule [0; 3600; 7200].

Definition deployment_D : Deployment :=
  {| dep_id := 7;
     dep_flow_id := Some 3%nat;
     dep_schedule := Some hourly3;
     dep_is_schedule_active := true;
     dep_tags := ["prod"];
     dep_parameters := {[ "x" := "1" ]} |}.

(** The same deployment identity with every other field changed. *)
Definition deployment_D_edited : Deployment :=
  {| dep_id := 7;
     dep_flow_id := Some 4%nat;
     dep_schedule := None;
     dep_is_schedule_active := false;
     dep_tags := ["staging"; "nightly"];
     dep_parameters := ∅ |}.

Definition deployment_paused : Deployment :=
  {| dep_id := 8;
     dep_flow_id := Some 3%nat;
     dep_schedule := Some hourly3;
     dep_is_schedule_active := false;
     dep_tags := [];
     dep_parameters := ∅ |}.

Definition deployment_no_flow : Deployment :=
  {| dep_id := 9;
     dep_flow_id := None;
     dep_schedule := Some hourly3;
     dep_is_schedule_active := true;
     dep_tags := [];
     dep_parameters := ∅ |}.

Definition settings0 : Settings :=
  {| scheduler_max_runs := 100; scheduler_max_scheduled_time := 8640000 |}.

Definition world0 : World :=
  {| deployment_table := [deployment_D; deployment_paused; deployment_no_flow];
     flow_run_table := [];
     flow_run_state_table := [];
     executed := [];
     uuid_source := 100;
     clock := 0 |}.

(** The runs a computation returned, and the world it left. *)
Definition returned {A} (x : (Error + list A) * World) : list A :=
  match x.1 with inr l => l | inl _ => [] end.

Definition world_after {A} (x : (Error + A) * World) : World := x.2.

(** The spec's example: the first call over the window of three hours. *)
Definition first_call : (Error + list FlowRun) * World :=
  schedule_runs settings0 7 (Some 0) (Some 10800) (Some 10) world0.

Definition runs1 : list FlowRun := returned first_call.

Definition world1 : World := world_after first_call.

(** Two candidates built after the first call for an overlapping window:
    the date 7200 is already scheduled, the date 10800 is new. *)
Definition overlapping_candidates : list FlowRun :=
  candidates_from deployment_D 7 3 106 [7200; 10800].

Definition world1_drawn : World := advance_uuid 2 world1.

(** The idempotence property read literally: for every deployment with an
    active schedule, the first of two identical calls returns a non-empty
    list and the second an empty one. *)
Definition idempotence_as_stated : Prop :=
  ∀ settings deployment_id start_time end_time max_runs w d sch,
    fresh_ids w →
    lookup_deployment w deployment_id = Some d →
    dep_schedule d = Some sch →
    dep_is_schedule_active d = true →
    ∃ rs w1 w2,
      schedule_runs settings deployment_id start_time end_time max_runs w
      = (inr rs, w1) ∧
      rs ≠ [] ∧
      schedule_runs settings deployment_id start_time end_time max_runs w1
      = (inr [], w2).

(** Whether a computation returned rather than raised. *)
Definition is_ok {A} (x : (Error + A) * World) : bool :=
  match x.1 with inr _ => true | inl _ => false end.

(** A deployment scheduled over five hours, and two calls over overlapping
    windows. *)
Definition deployment_E : Deployment :=
  {| dep_id := 11;
     dep_flow_id := Some 3%nat;
     dep_schedule := Some (dates_schedule [0; 3600; 7200; 10800; 14400]);
     dep_is_schedule_active := true;
     dep_tags := [];
     dep_parameters := ∅ |}.

Definition world_E : World :=
  {| deployment_table := [deployment_D; deployment_E];
     flow_run_table := [];
     flow_run_state_table := [];
     executed := [];
     uuid_source := 0;
     clock := 0 |}.

Definition call_E1 : (Error + list FlowRun) * World :=
  schedule_runs settings0 11 (Some 0) (Some 7201) None world_E.

Definition call_E2 : (Error + list FlowRun) * World :=
  schedule_runs settings0 11 (Some 3600) None (Some 10)
    (set_clock 60 (world_after call_E1)).

(** ** The deployment repository

    The other functions of the file: [create_deployment], [read_deployment],
    [read_deployment_by_name], [_apply_deployment_filters],
    [read_deployments], [count_deployments] and [delete_deployment]. They read
    and write the tables through queries; a query is modelled by what it
    selects from the rows of a [Database]. *)

(** A row of the flow table: the columns the queries of this file read. *)
Record Flow := {
  fl_id : UUID;
  fl_name : string
}.

(** A row of the task_run table. *)
Record TaskRun := {
  tr_id : UUID;
  tr_flow_run_id : UUID;
  tr_name : string
}.

(** A deployment with all its columns: a row of the deployment table
    ([db_config.Deployment]) and the model passed to [create_deployment]
    ([schemas.core.Deployment]) when every field of it is set, which is the
    case the embedding covers. *)
Record DeploymentModel := {
  dm_id : UUID;
  dm_created : DateTime;
  dm_updated : DateTime;
  dm_name : string;
  dm_flow_id : UUID;
  dm_flow_data : string;
  dm_schedule : option Schedule;
  dm_is_schedule_active : bool;
  dm_tags : list string;
  dm_parameters : gmap string string
}.

Record Database := {
  db_deployment : list DeploymentModel;
  db_flow : list Flow;
  db_flow_run : list FlowRunRow;
  db_task_run : list TaskRun;
  db_clock : DateTime
}.

Definition set_db_deployment (t : list DeploymentModel) (db : Database)
  : Database :=
  {| db_deployment := t;
     db_flow := db_flow db;
     db_flow_run := db_flow_run db;
     db_task_run := db_task_run db;
     db_clock := db_clock db |}.

(** [deployment.updated = pendulum.now("UTC")]. *)
Definition set_updated (now : DateTime) (d : DeploymentModel)
  : DeploymentModel :=
  {| dm_id := dm_id d;
     dm_created := dm_created d;
     dm_updated := now;
     dm_name := dm_name d;
     dm_flow_id := dm_flow_id d;
     dm_flow_data := dm_flow_data d;
     dm_schedule := dm_schedule d;
     dm_is_schedule_active := dm_is_schedule_active d;
     dm_tags := dm_tags d;
     dm_parameters := dm_parameters d |}.

(** The [set_] of the conflict clause, line 46-56: the stored row takes the
    model's schedule, is_schedule_active, tags, parameters, flow_data and
    updated, and keeps its other columns. *)
Definition on_conflict_set (deployment old : DeploymentModel)
  : DeploymentModel :=
  {| dm_id := dm_id old;
     dm_created := dm_created old;
     dm_updated := dm_updated deployment;
     dm_name := dm_name old;
     dm_flow_id := dm_flow_id old;
     dm_flow_data := dm_flow_data deployment;
     dm_schedule := dm_schedule deployment;
     dm_is_schedule_active := dm_is_schedule_active deployment;
     dm_tags := dm_tags deployment;
     dm_parameters := dm_parameters deployment |}.

(** The update of the row that conflicts on the upsert columns. The columns
    themselves, [db_config.deployment_unique_upsert_columns], are not under
    src and are a parameter. *)
Fixpoint update_conflicting {K} `{EqDecision K}
    (deployment_unique_upsert_columns : DeploymentModel → K)
    (deployment : DeploymentModel) (table : list DeploymentModel)
  : list DeploymentModel :=
  match table with
  | [] => []
  | old :: table' =>
      if decide (deployment_unique_upsert_columns old
                 = deployment_unique_upsert_columns deployment)
      then on_conflict_set deployment old :: table'
      else old
             :: update_conflicting deployment_unique_upsert_columns
                  deployment table'
  end.

(** [insert(...).values(...).on_conflict_do_update(index_elements=...,
    set_=...)]: a row with the same upsert columns is updated; otherwise the
    model is inserted, unless its primary key is taken, which the conflict
    clause does not cover and the database refuses. *)
Definition on_conflict_do_update {K} `{EqDecision K}
    (deployment_unique_upsert_columns : DeploymentModel → K)
    (table : list DeploymentModel) (deployment : DeploymentModel)
  : option (list DeploymentModel) :=
  if decide (deployment_unique_upsert_columns deployment
             ∈ deployment_unique_upsert_columns <$> table)
  then Some (update_conflicting deployment_unique_upsert_columns
               deployment table)
  else if decide (dm_id deployment ∈ dm_id <$> table)
  then None
  else Some (table ++ [deployment]).

Definition create_deployment {K} `{EqDecision K}
    (deployment_unique_upsert_columns : DeploymentModel → K)
    (deployment : DeploymentModel) (db : Database)
  : (Error + option DeploymentModel) * Database :=
  let deployment := set_updated (db_clock db) deployment in
  match on_conflict_do_update deployment_unique_upsert_columns
          (db_deployment db) deployment with
  | None => (inl IntegrityError, db)
  | Some table =>
      (inr (head (filter (λ d, dm_flow_id d = dm_flow_id deployment ∧
                               dm_name d = dm_name deployment) table)),
       set_db_deployment table db)
  end.

(** [session.get(db_config.Deployment, deployment_id)]. *)
Definition read_deployment (deployment_id : UUID) (db : Database)
  : option DeploymentModel :=
  head (filter (λ d, dm_id d = deployment_id) (db_deployment db)).

(** [Deployment JOIN Flow ON Deployment.flow_id == Flow.id]. *)
Definition deployment_join_flow (db : Database)
  : list (DeploymentModel * Flow) :=
  d ← db_deployment db;
  (λ fl, (d, fl)) <$> filter (λ fl, dm_flow_id d = fl_id fl) (db_flow db).

Definition read_deployment_by_name (name flow_name : string) (db : Database)
  : option DeploymentModel :=
  fst <$> head (filter (λ p, fl_name p.2 = flow_name ∧ dm_name p.1 = name)
                       (deployment_join_flow db)).

(** A filter is what its [as_sql_filter()] selects: a test on a row. *)
Definition DeploymentFilter : Type := DeploymentModel → bool.
Definition FlowFilter : Type := Flow → bool.
Definition FlowRunFilter : Type := FlowRunRow → bool.
Definition TaskRunFilter : Type := TaskRun → bool.

(** [query.where(clause)] on a query over the deployment table. *)
Definition where_ (query clause : DeploymentModel → bool)
  : DeploymentModel → bool :=
  λ d, query d && clause d.

Definition _apply_deployment_filters (db : Database)
    (query : DeploymentModel → bool)
    (flow_filter : option FlowFilter)
    (flow_run_filter : option FlowRunFilter)
    (task_run_filter : option TaskRunFilter)
    (deployment_filter : option DeploymentFilter)
  : DeploymentModel → bool :=
  let query :=
    match deployment_filter with
    | Some f => where_ query f
    | None => query
    end in
  let query :=
    match flow_filter with
    | Some f =>
        where_ query
          (λ d, existsb (λ fl, bool_decide (dm_flow_id d = fl_id fl) && f fl)
                        (db_flow db))
    | None => query
    end in
  match flow_run_filter, task_run_filter with
  | None, None => query
  | _, _ =>
      let exists_clause : DeploymentModel → FlowRunRow → bool :=
        λ d fr, bool_decide (dm_id d = fr_deployment_id (row_run fr)) in
      let exists_clause :=
        match flow_run_filter with
        | Some f => λ d fr, exists_clause d fr && f fr
        | None => exists_clause
        end in
      let exists_clause :=
        match task_run_filter with
        | Some f =>
            λ d fr,
              exists_clause d fr
              && existsb (λ tr, bool_decide (tr_flow_run_id tr = row_id fr)
                                && f tr)
                         (db_task_run db)
        | None => exists_clause
        end in
      where_ query (λ d, existsb (exists_clause d) (db_flow_run db))
  end.

(** [Result.unique()]: a row whose primary key was already returned is
    dropped. *)
Fixpoint unique (seen : list UUID) (rows : list DeploymentModel)
  : list DeploymentModel :=
  match rows with
  | [] => []
  | d :: rows' =>
      if decide (dm_id d ∈ seen) then unique seen rows'
      else d :: unique (dm_id d :: seen) rows'
  end.

(** The order of [ORDER BY name]: the collation of the database on the
    names, a parameter. *)
Definition by_name (name_le : relation string) : relation DeploymentModel :=
  λ d1 d2, name_le (dm_name d1) (dm_name d2).

Global Instance by_name_dec (name_le : relation string)
    `{!RelDecision name_le} : RelDecision (by_name name_le).
Proof. intros d1 d2. unfold by_name. apply _. Defined.

(** [read_deployments]; [offset] and [limit] are counts. *)
Definition read_deployments
    (name_le : relation string) `{!RelDecision name_le}
    (offset limit : option nat)
    (flow_filter : option FlowFilter)
    (flow_run_filter : option FlowRunFilter)
    (task_run_filter : option TaskRunFilter)
    (deployment_filter : option DeploymentFilter)
    (db : Database) : list DeploymentModel :=
  let query :=
    _apply_deployment_filters db (λ _, true) flow_filter flow_run_filter
      task_run_filter deployment_filter in
  let rows :=
    merge_sort (by_name name_le)
               (filter (λ d, query d = true) (db_deployment db)) in
  let rows := match offset with Some o => drop o rows | None => rows end in
  let rows := match limit with Some l => take l rows | None => rows end in
  unique [] rows.

Definition count_deployments
    (flow_filter : option FlowFilter)
    (flow_run_filter : option FlowRunFilter)
    (task_run_filter : option TaskRunFilter)
    (deployment_filter : option DeploymentFilter)
    (db : Database) : nat :=
  let query :=
    _apply_deployment_filters db (λ _, true) flow_filter flow_run_filter
      task_run_filter deployment_filter in
  length (filter (λ d, query d = true) (db_deployment db)).

(** [delete(db_config.Deployment).where(id == deployment_id)], and whether
    [rowcount > 0]. Foreign-key actions that other tables declare on this
    delete are outside this file and are not modelled. *)
Definition delete_deployment (deployment_id : UUID) (db : Database)
  : bool * Database :=
  let rowcount :=
    length (filter (λ d, dm_id d = deployment_id) (db_deployment db)) in
  (bool_decide (0 < rowcount)%nat,
   set_db_deployment
     (filter (λ d, dm_id d ≠ deployment_id) (db_deployment db)) db).

(** The snapshot of a stored deployment that the scheduling functions read,
    and the world they run in when the deployment table is that of [db]. *)
Definition snapshot (d : DeploymentModel) : Deployment :=
  {| dep_id := dm_id d;
     dep_flow_id := Some (dm_flow_id d);
     dep_schedule := dm_schedule d;
     dep_is_schedule_active := dm_is_schedule_active d;
     dep_tags := dm_tags d;
     dep_parameters := dm_parameters d |}.

Definition with_deployments (db : Database) (w : World) : World :=
  {| deployment_table := snapshot <$> db_deployment db;
     flow_run_table := flow_run_table w;
     flow_run_state_table := flow_run_state_table w;
     executed := executed w;
     uuid_source := uuid_source w;
     clock := clock w |}.

(** What the filters select, said directly. *)
Definition deployment_matches (db : Database)
    (flow_filter : option FlowFilter)
    (flow_run_filter : option FlowRunFilter)
    (task_run_filter : option TaskRunFilter)
    (deployment_filter : option DeploymentFilter)
    (d : DeploymentModel) : Prop :=
  (∀ f, deployment_filter = Some f → f d = true) ∧
  (∀ f, flow_filter = Some f →
        ∃ fl, fl ∈ db_flow db ∧ dm_flow_id d = fl_id fl ∧ f fl = true) ∧
  (is_Some flow_run_filter ∨ is_Some task_run_filter →
   ∃ fr, fr ∈ db_flow_run db ∧
         dm_id d = fr_deployment_id (row_run fr) ∧
         (∀ f, flow_run_filter = Some f → f fr = true) ∧
         (∀ f, task_run_filter = Some f →
               ∃ tr, tr ∈ db_task_run db ∧
                     tr_flow_run_id tr = row_id fr ∧ f tr = true)).

(** The upsert columns are the flow and the name, by which line 62-69 read
    the upserted row back. *)
Definition upsert_on_flow_and_name {K}
    (deployment_unique_upsert_columns : DeploymentModel → K) : Prop :=
  ∀ a b, deployment_unique_upsert_columns a
         = deployment_unique_upsert_columns b ↔
         dm_flow_id a = dm_flow_id b ∧ dm_name a = dm_name b.

(** Concrete repository data. *)
Definition by_flow_and_name (d : DeploymentModel) : UUID * string :=
  (dm_flow_id d, dm_name d).

Definition flow_etl : Flow := {| fl_id := 3; fl_name := "etl" |}.
Definition flow_ml : Flow := {| fl_id := 4; fl_name := "ml" |}.

Definition model_nightly : DeploymentModel :=
  {| dm_id := 7; dm_created := 10; dm_updated := 10; dm_name := "nightly";
     dm_flow_id := 3; dm_flow_data := "v1"; dm_schedule := Some hourly3;
     dm_is_schedule_active := true; dm_tags := ["prod"];
     dm_parameters := {[ "x" := "1" ]} |}.

Definition model_adhoc : DeploymentModel :=
  {| dm_id := 8; dm_created := 20; dm_updated := 20; dm_name := "adhoc";
     dm_flow_id := 3; dm_flow_data := "v1"; dm_schedule := None;
     dm_is_schedule_active := true; dm_tags := []; dm_parameters := ∅ |}.

Definition model_train : DeploymentModel :=
  {| dm_id := 9; dm_created := 30; dm_updated := 30; dm_name := "train";
     dm_flow_id := 4; dm_flow_data := "v3"; dm_schedule := Some hourly3;
     dm_is_schedule_active := false; dm_tags := ["gpu"];
     dm_parameters := ∅ |}.

(** A new version of "nightly" of flow 3, sent with another id. *)
Definition model_nightly_v2 : DeploymentModel :=
  {| dm_id := 77; dm_created := 40; dm_updated := 40; dm_name := "nightly";
     dm_flow_id := 3; dm_flow_data := "v2";
     dm_schedule := Some (dates_schedule [0; 1800]);
     dm_is_schedule_active := true; dm_tags := ["prod"; "fast"];
     dm_parameters := ∅ |}.

(** A deployment of flow 4 not stored yet. *)
Definition model_report : DeploymentModel :=
  {| dm_id := 12; dm_created := 45; dm_updated := 45; dm_name := "report";
     dm_flow_id := 4; dm_flow_data := "v1";
     dm_schedule := Some (dates_schedule [100; 200]);
     dm_is_schedule_active := true; dm_tags := []; dm_parameters := ∅ |}.

Definition db0 : Database :=
  {| db_deployment := [model_nightly; model_adhoc; model_train];
     db_flow := [flow_etl; flow_ml];
     db_flow_run := flow_run_table world1;
     db_task_run := [{| tr_id := 200; tr_flow_run_id := 101;
                        tr_name := "extract" |}];
     db_clock := 50 |}.

(** ** Descriptions used by the further properties *)

(** The flow_run rows of newly inserted runs once linked: the run's columns
    and the identifier of its state row, drawn from [i] on. *)
Fixpoint linked_rows (i : UUID) (runs : list FlowRun) : list FlowRunRow :=
  match runs with
  | [] => []
  | r :: runs' =>
      {| row_run := r; row_state_id := Some i |} :: linked_rows (S i) runs'
  end.

(** The statements the persister executes for candidates [runs] when it
    returns [rs]: nothing for no candidate; else the insert and the probe,
    followed by the state insert and the pointer update when [rs] is not
    empty. *)
Definition persister_trace
    (runs rs : list FlowRun) (ids : list UUID) (i : UUID) : list Statement :=
  match runs with
  | [] => []
  | _ :: _ =>
      InsertFlowRuns runs
        :: SelectInsertedRows (fr_id <$> runs)
        :: match rs with
           | [] => []
           | _ :: _ =>
               [InsertFlowRunStates (state_rows_from i rs); SetStateId ids]
           end
  end.

(** The constraints of the two tables: primary keys and upsert keys are
    unique, every state row belongs to a stored run, and every stored run
    points to a state row of its own. *)
Definition integrity (w : World) : Prop :=
  NoDup (row_id <$> flow_run_table w) ∧
  NoDup (row_key <$> flow_run_table w) ∧
  NoDup (srow_id <$> flow_run_state_table w) ∧
  (∀ s, s ∈ flow_run_state_table w →
        srow_flow_run_id s ∈ row_id <$> flow_run_table w) ∧
  (∀ row, row ∈ flow_run_table w →
          ∃ s, s ∈ flow_run_state_table w ∧
               row_state_id row = Some (srow_id s) ∧
               srow_flow_run_id s = row_id row).

(** The fields line 333-347 fix on every candidate. *)
Definition scheduled_fields (deployment_id : UUID) (r : FlowRun) : Prop :=
  fr_deployment_id r = deployment_id ∧
  fr_auto_scheduled r = true ∧
  fr_state_type r = SCHEDULED ∧
  st_type (fr_state r) = SCHEDULED ∧
  st_message (fr_state r) = "Flow run scheduled" ∧
  fr_expected_start_time r = fr_next_scheduled_start_time r ∧
  st_scheduled_time (fr_state r) = fr_next_scheduled_start_time r.

(** No character of the string is a space. *)
Fixpoint no_space (s : string) : bool :=
  match s with
  | EmptyString => true
  | String c s' => bool_decide (c ≠ " "%char) && no_space s'
  end.

(** ** Tactics *)

Ltac pair_inv H := inversion H; subst; clear H.

Ltac world_simpl_goal :=
  cbn [deployment_table flow_run_table flow_run_state_table executed
       uuid_source clock log set_flow_run_table set_flow_run_state_table
       set_clock advance_uuid].

Tactic Notation "world_simpl" := world_simpl_goal.
Tactic Notation "world_simpl" hyp(H) :=
  cbn [deployment_table flow_run_table flow_run_state_table executed
       uuid_source clock log set_flow_run_table set_flow_run_state_table
       set_clock advance_uuid] in H.

(** ** Laws of the monad *)

Lemma bind_ok {A B} (m : M A) (k : A → M B) w a w1 :
  m w = (inr a, w1) → bind m k w = k a w1.
Proof. intros H. unfold bind. by rewrite H. Qed.

Lemma bind_err {A B} (m : M A) (k : A → M B) w e w1 :
  m w = (inl e, w1) → bind m k w = (inl e, w1).
Proof. intros H. unfold bind. by rewrite H. Qed.

Lemma bind_ok_inv {A B} (m : M A) (k : A → M B) w b w' :
  bind m k w = (inr b, w') →
  ∃ a w1, m w = (inr a, w1) ∧ k a w1 = (inr b, w').
Proof.
  unfold bind. destruct (m w) as [[e|a] w1]; [discriminate|]. eauto.
Qed.

Lemma World_eq w1 w2 :
  deployment_table w1 = deployment_table w2 →
  flow_run_table w1 = flow_run_table w2 →
  flow_run_state_table w1 = flow_run_state_table w2 →
  executed w1 = executed w2 →
  uuid_source w1 = uuid_source w2 →
  clock w1 = clock w2 →
  w1 = w2.
Proof. destruct w1, w2; simpl; intros; by subst. Qed.

(** ** Generating the candidates *)

Lemma lookup_deployment_id w deployment_id d :
  lookup_deployment w deployment_id = Some d → dep_id d = deployment_id.
Proof.
  unfold lookup_deployment. intros H. apply find_some in H as [_ H].
  by apply bool_decide_eq_true in H.
Qed.

Lemma advance_uuid_0 w : advance_uuid 0 w = w.
Proof. apply World_eq; simpl; auto with lia. Qed.

Lemma for_each_candidates d deployment_id f dates w :
  dep_flow_id d = Some f →
  for_each (scheduled_flow_run d deployment_id) dates w
  = (inr (candidates_from d deployment_id f (uuid_source w) dates),
     advance_uuid (length dates) w).
Proof.
  intros Hf. revert w. induction dates as [|date dates IH]; intros w.
  - simpl. unfold ret. by rewrite advance_uuid_0.
  - cbn [for_each candidates_from]. unfold bind at 1.
    unfold scheduled_flow_run at 1, FlowRun_init. rewrite Hf.
    unfold bind at 1, uuid4 at 1, ret at 1. unfold bind at 1. rewrite IH.
    unfold ret. cbn [uuid_source]. f_equal.
    apply World_eq; simpl; auto with lia.
Qed.

Lemma for_each_invalid d deployment_id date dates w :
  dep_flow_id d = None →
  for_each (scheduled_flow_run d deployment_id) (date :: dates) w
  = (inl InvalidDeploymentState, w).
Proof.
  intros Hf. cbn [for_each]. unfold bind at 1.
  unfold scheduled_flow_run, FlowRun_init. by rewrite Hf.
Qed.

Lemma generate_short deployment_id start_time end_time max_runs w :
  (lookup_deployment w deployment_id = None ∨
   ∃ d, lookup_deployment w deployment_id = Some d ∧
        (dep_schedule d = None ∨ dep_is_schedule_active d = false)) →
  _generate_scheduled_flow_runs deployment_id start_time end_time max_runs w
  = (inr [], log (SessionGet deployment_id) w).
Proof.
  unfold lookup_deployment, _generate_scheduled_flow_runs, bind, session_get.
  intros [H | (d & H & [Hs | Ha])]; rewrite H; [done| |].
  - by rewrite Hs.
  - rewrite Ha. by destruct (dep_schedule d).
Qed.

Lemma generate_active deployment_id start_time end_time max_runs w d sch f :
  lookup_deployment w deployment_id = Some d →
  dep_schedule d = Some sch →
  dep_is_schedule_active d = true →
  dep_flow_id d = Some f →
  _generate_scheduled_flow_runs deployment_id start_time end_time max_runs w
  = (inr (candidates_from d deployment_id f (uuid_source w)
            (get_dates sch max_runs start_time end_time)),
     advance_uuid (length (get_dates sch max_runs start_time end_time))
       (log (SessionGet deployment_id) w)).
Proof.
  unfold lookup_deployment, _generate_scheduled_flow_runs, bind, session_get.
  intros H Hs Ha Hf. rewrite H, Hs, Ha. cbn [negb].
  by rewrite (for_each_candidates _ _ f).
Qed.

Lemma generate_invalid deployment_id start_time end_time max_runs w d sch :
  lookup_deployment w deployment_id = Some d →
  dep_schedule d = Some sch →
  dep_is_schedule_active d = true →
  dep_flow_id d = None →
  get_dates sch max_runs start_time end_time ≠ [] →
  _generate_scheduled_flow_runs deployment_id start_time end_time max_runs w
  = (inl InvalidDeploymentState, log (SessionGet deployment_id) w).
Proof.
  unfold lookup_deployment, _generate_scheduled_flow_runs, bind, session_get.
  intros H Hs Ha Hf Hd. rewrite H, Hs, Ha. cbn [negb].
  destruct (get_dates sch max_runs start_time end_time) as [|date dates];
    [done|].
  by rewrite for_each_invalid.
Qed.

(** ** Candidates and state rows *)

Lemma candidates_from_ids d deployment_id f i dates :
  fr_id <$> candidates_from d deployment_id f i dates = seq i (length dates).
Proof.
  revert i. induction dates as [|date dates IH]; intros i; [done|].
  cbn. by rewrite IH.
Qed.

Lemma candidates_from_keys d deployment_id f i dates :
  fr_idempotency_key <$> candidates_from d deployment_id f i dates
  = scheduled_key (dep_id d) <$> dates.
Proof.
  revert i. induction dates as [|date dates IH]; intros i; [done|].
  cbn. by rewrite IH.
Qed.

Lemma candidates_from_length d deployment_id f i dates :
  length (candidates_from d deployment_id f i dates) = length dates.
Proof.
  revert i. induction dates as [|date dates IH]; intros i; [done|].
  cbn. by rewrite IH.
Qed.

Lemma elem_of_candidates_from d deployment_id f i dates r :
  r ∈ candidates_from d deployment_id f i dates →
  ∃ date, date ∈ dates ∧
          r = candidate d deployment_id f (fr_id r) date ∧
          (i ≤ fr_id r < i + length dates)%nat.
Proof.
  revert i. induction dates as [|date dates IH]; intros i; cbn.
  - by intros ?%elem_of_nil.
  - intros [->|H]%elem_of_cons.
    + exists date. split; [by left|]. split; [done|]. cbn. lia.
    + destruct (IH _ H) as (date' & ? & ? & ?).
      exists date'. split; [by right|]. split; [done|]. lia.
Qed.

Lemma candidates_from_NoDup d deployment_id f i dates :
  NoDup (fr_id <$> candidates_from d deployment_id f i dates).
Proof. rewrite candidates_from_ids. apply NoDup_seq. Qed.

(** Whatever the deployment, a generation that returns leaves the tables
    alone and returns candidates of the deployment it found. *)
Lemma generate_inv deployment_id start_time end_time max_runs w runs w1 :
  _generate_scheduled_flow_runs deployment_id start_time end_time max_runs w
  = (inr runs, w1) →
  w1 = advance_uuid (length runs) (log (SessionGet deployment_id) w) ∧
  (runs = [] ∨
   ∃ d sch f,
     lookup_deployment w deployment_id = Some d ∧
     dep_schedule d = Some sch ∧
     dep_is_schedule_active d = true ∧
     dep_flow_id d = Some f ∧
     runs = candidates_from d deployment_id f (uuid_source w)
              (get_dates sch max_runs start_time end_time)).
Proof.
  intros H.
  destruct (lookup_deployment w deployment_id) as [d|] eqn:Hl.
  2:{ rewrite generate_short in H by auto. pair_inv H.
      rewrite advance_uuid_0. auto. }
  destruct (dep_schedule d) as [sch|] eqn:Hs.
  2:{ rewrite generate_short in H by eauto. pair_inv H.
      rewrite advance_uuid_0. auto. }
  destruct (dep_is_schedule_active d) eqn:Ha.
  2:{ rewrite generate_short in H by eauto. pair_inv H.
      rewrite advance_uuid_0. auto. }
  destruct (dep_flow_id d) as [f|] eqn:Hf.
  - rewrite (generate_active _ _ _ _ _ d sch f) in H by done.
    pair_inv H. rewrite candidates_from_length. split; [done|].
    right. by exists d, sch, f.
  - destruct (get_dates sch max_runs start_time end_time) as [|date dates]
      eqn:Hd.
    + revert H.
      unfold lookup_deployment in Hl.
      unfold _generate_scheduled_flow_runs, bind, session_get.
      rewrite Hl, Hs, Ha, Hd. cbn. unfold ret. intros H.
      pair_inv H. rewrite advance_uuid_0. auto.
    + rewrite (generate_invalid _ _ _ _ _ d sch) in H; try done.
      by rewrite Hd.
Qed.

Lemma NoDup_fmap_eq {A B} (f : A → B) (l : list A) x y :
  NoDup (f <$> l) → x ∈ l → y ∈ l → f x = f y → x = y.
Proof.
  induction l as [|a l IH]; cbn; [by intros _ ?%elem_of_nil|].
  intros [Ha Hl]%NoDup_cons [->|Hx]%elem_of_cons [->|Hy]%elem_of_cons Hf;
    auto.
  - exfalso. apply Ha. rewrite Hf. by apply list_elem_of_fmap_2.
  - exfalso. apply Ha. rewrite <- Hf. by apply list_elem_of_fmap_2.
Qed.

Lemma head_filter_Some {A} (P : A → Prop) `{!∀ x, Decision (P x)} l x :
  x ∈ l → P x → ∃ y, head (filter P l) = Some y ∧ y ∈ l ∧ P y.
Proof.
  intros Hx HP. destruct (filter P l) as [|y k] eqn:E.
  - by destruct (filter_nil_not_elem_of P l x).
  - exists y. split; [done|].
    assert (y ∈ filter P l) as [? ?]%list_elem_of_filter by (rewrite E; left).
    done.
Qed.

Lemma for_each_state_rows runs w :
  for_each (λ r, let* i := uuid4 in
                 ret {| srow_id := i;
                        srow_flow_run_id := fr_id r;
                        srow_state := fr_state r |}) runs w
  = (inr (state_rows_from (uuid_source w) runs),
     advance_uuid (length runs) w).
Proof.
  revert w. induction runs as [|r runs IH]; intros w.
  - simpl. unfold ret. by rewrite advance_uuid_0.
  - cbn [for_each state_rows_from]. unfold bind at 1.
    unfold bind at 1, uuid4 at 1, ret at 1. unfold bind at 1. rewrite IH.
    unfold ret. cbn [uuid_source]. f_equal.
    apply World_eq; simpl; auto with lia.
Qed.

Lemma state_rows_from_ids i runs :
  srow_id <$> state_rows_from i runs = seq i (length runs).
Proof.
  revert i. induction runs as [|r runs IH]; intros i; [done|].
  cbn. by rewrite IH.
Qed.

Lemma state_rows_from_flow_run_ids i runs :
  srow_flow_run_id <$> state_rows_from i runs = fr_id <$> runs.
Proof.
  revert i. induction runs as [|r runs IH]; intros i; [done|].
  cbn. by rewrite IH.
Qed.

Lemma elem_of_state_rows_from i runs s :
  s ∈ state_rows_from i runs →
  ∃ r, r ∈ runs ∧ srow_flow_run_id s = fr_id r ∧ srow_state s = fr_state r.
Proof.
  revert i. induction runs as [|r runs IH]; intros i; cbn.
  - by intros ?%elem_of_nil.
  - intros [->|H]%elem_of_cons.
    + exists r. split; [by left|done].
    + destruct (IH _ H) as (r' & ? & ?). exists r'. split; [by right|done].
Qed.

Lemma state_rows_from_nil i runs : state_rows_from i runs = [] → runs = [].
Proof. by destruct runs. Qed.

(** The state row linked to a run is the one written for that very run. *)
Lemma state_rows_from_head i runs r :
  NoDup (fr_id <$> runs) → r ∈ runs →
  ∃ s, head (filter (λ s, srow_flow_run_id s = fr_id r)
                    (state_rows_from i runs)) = Some s ∧
       s ∈ state_rows_from i runs ∧
       srow_flow_run_id s = fr_id r ∧
       srow_state s = fr_state r.
Proof.
  intros Hnd Hr.
  assert (fr_id r ∈ srow_flow_run_id <$> state_rows_from i runs) as Hin.
  { rewrite state_rows_from_flow_run_ids. by apply list_elem_of_fmap_2. }
  apply list_elem_of_fmap in Hin as (s0 & Hs0 & Hin).
  destruct (head_filter_Some (λ s, srow_flow_run_id s = fr_id r) _ s0 Hin)
    as (s & Hhead & Hs & Hid); [done|].
  exists s. repeat split; try done.
  destruct (elem_of_state_rows_from _ _ _ Hs) as (r' & Hr' & Hid' & ->).
  f_equal. apply (NoDup_fmap_eq fr_id runs); congruence.
Qed.

(** ** The conflict-ignoring insert *)

Lemma insert_accepted table rows t1 :
  insert_on_conflict_do_nothing table rows = Some t1 →
  t1 = table ++ (unlinked_row <$> accepted (row_key <$> table) rows).
Proof.
  revert table. induction rows as [|r rows IH]; intros table; cbn.
  - intros [= <-]. by rewrite app_nil_r.
  - destruct (decide (_ ∈ row_key <$> table)); [apply IH|].
    destruct (decide (_ ∈ row_id <$> table)); [done|].
    intros H%IH. rewrite H, fmap_app, <- app_assoc. done.
Qed.

Lemma insert_succeeds table rows :
  NoDup (fr_id <$> rows) →
  (∀ r, r ∈ rows → fr_id r ∉ row_id <$> table) →
  is_Some (insert_on_conflict_do_nothing table rows).
Proof.
  revert table. induction rows as [|r rows IH]; intros table; cbn; [eauto|].
  intros [Hr Hnd]%NoDup_cons Hfresh.
  destruct (decide (_ ∈ row_key <$> table)).
  { apply IH; [done|]. intros r' ?. apply Hfresh. by right. }
  destruct (decide (_ ∈ row_id <$> table)) as [Hin|_].
  { destruct (Hfresh r); [by left|done]. }
  apply IH; [done|]. intros r' Hr'.
  rewrite fmap_app, elem_of_app. intros [Hin|Hin%list_elem_of_singleton].
  - by apply (Hfresh r'); [right|].
  - apply Hr. unfold row_id in Hin. cbn in Hin. rewrite <- Hin.
    by apply list_elem_of_fmap_2.
Qed.

Lemma accepted_sublist keys rows : accepted keys rows `sublist_of` rows.
Proof.
  revert keys. induction rows as [|r rows IH]; intros keys; cbn; [done|].
  destruct (decide _); [by apply sublist_cons|by apply sublist_skip].
Qed.

Lemma accepted_NoDup keys rows :
  NoDup keys →
  NoDup (keys ++ (flow_run_unique_upsert_columns <$> accepted keys rows)).
Proof.
  revert keys. induction rows as [|r rows IH]; intros keys Hnd; cbn.
  - by rewrite app_nil_r.
  - destruct (decide _) as [|Hr]; [by apply IH|].
    cbn. rewrite cons_middle, app_assoc. apply IH.
    apply NoDup_app. split; [done|]. split; [|apply NoDup_singleton].
    intros k Hk ->%list_elem_of_singleton. done.
Qed.

Lemma accepted_covers keys rows r :
  r ∈ rows →
  flow_run_unique_upsert_columns r
    ∈ keys ++ (flow_run_unique_upsert_columns <$> accepted keys rows).
Proof.
  revert keys. induction rows as [|a rows IH]; intros keys; cbn.
  - by intros ?%elem_of_nil.
  - intros Hr. destruct (decide _) as [Ha|Ha].
    + apply elem_of_cons in Hr as [->|Hr]; [|by apply IH].
      apply elem_of_app. by left.
    + cbn. rewrite cons_middle, app_assoc.
      apply elem_of_cons in Hr as [->|Hr]; [|by apply IH].
      rewrite !elem_of_app, list_elem_of_singleton. auto.
Qed.

Lemma accepted_not_taken keys rows r :
  r ∈ accepted keys rows → flow_run_unique_upsert_columns r ∉ keys.
Proof.
  revert keys. induction rows as [|a rows IH]; intros keys; cbn.
  - by intros ?%elem_of_nil.
  - destruct (decide _) as [Ha|Ha]; [apply IH|].
    intros [->|Hr%IH]%elem_of_cons; [done|].
    intros ?. apply Hr, elem_of_app. by left.
Qed.

Lemma accepted_nil keys rows :
  accepted keys rows = [] ↔
  ∀ r, r ∈ rows → flow_run_unique_upsert_columns r ∈ keys.
Proof.
  split.
  - intros H r Hr. pose proof (accepted_covers keys rows r Hr) as Hc.
    by rewrite H, app_nil_r in Hc.
  - induction rows as [|a rows IH]; cbn; [done|]. intros H.
    destruct (decide _) as [Ha|Ha].
    + apply IH. intros r ?. apply H. by right.
    + destruct Ha. apply H. by left.
Qed.

Lemma accepted_elem_of keys rows r :
  r ∈ accepted keys rows → r ∈ rows.
Proof. intros H. eapply elem_of_sublist; [done|apply accepted_sublist]. Qed.

(** ** The probe for rows without a state *)

Lemma elem_of_left_outer_join_None runs states row :
  (row, None) ∈ left_outer_join runs states ↔
  row ∈ runs ∧ row_id row ∉ srow_flow_run_id <$> states.
Proof.
  unfold left_outer_join. rewrite list_elem_of_bind. split.
  - intros (y & Hy & Hin).
    destruct (filter _ states) as [|s0 matched] eqn:E.
    + apply list_elem_of_singleton in Hy as [= ->]. split; [done|].
      intros (s & Hs & Hsin)%list_elem_of_fmap.
      by apply (filter_nil_not_elem_of _ _ s E).
    + by apply list_elem_of_fmap in Hy as (s & [=] & _).
  - intros [Hin Hno]. exists row. split; [|done].
    destruct (filter _ states) as [|s0 matched] eqn:E; [by left|].
    destruct Hno.
    assert (s0 ∈ filter (λ s, srow_flow_run_id s = row_id row) states)
      as [Hid ?]%list_elem_of_filter by (rewrite E; left).
    rewrite <- Hid. by apply list_elem_of_fmap_2.
Qed.

Lemma elem_of_inserted_rows ids runs states i :
  i ∈ inserted_rows ids runs states ↔
  i ∈ ids ∧ i ∈ row_id <$> runs ∧ i ∉ srow_flow_run_id <$> states.
Proof.
  unfold inserted_rows. rewrite list_elem_of_fmap. split.
  - intros ([row o] & -> & [[Hids Ho] Hin]%list_elem_of_filter).
    cbn in *. subst o.
    apply elem_of_left_outer_join_None in Hin as [? ?].
    split; [done|]. split; [by apply list_elem_of_fmap_2|done].
  - intros (Hids & (row & -> & Hin)%list_elem_of_fmap & Hno).
    exists (row, None). split; [done|].
    apply list_elem_of_filter. split; [done|].
    by apply elem_of_left_outer_join_None.
Qed.

(** ** Writing and linking the states *)

Lemma insert_state_rows_app table rows t :
  insert_flow_run_state_rows table rows = Some t → t = table ++ rows.
Proof.
  revert table. induction rows as [|s rows IH]; intros table; cbn.
  - intros [= <-]. by rewrite app_nil_r.
  - destruct (decide _); [done|]. intros ->%IH. by rewrite <- app_assoc.
Qed.

Lemma insert_state_rows_succeeds table i runs :
  (∀ s, s ∈ table → (srow_id s < i)%nat) →
  insert_flow_run_state_rows table (state_rows_from i runs)
  = Some (table ++ state_rows_from i runs).
Proof.
  revert table i. induction runs as [|r runs IH]; intros table i Hlt; cbn.
  - by rewrite app_nil_r.
  - destruct (decide _) as [(s & Hs & Hin)%list_elem_of_fmap|_].
    { apply Hlt in Hin. cbn in Hs. lia. }
    rewrite IH, <- app_assoc; [done|].
    intros s [Hin| ->%list_elem_of_singleton]%elem_of_app; cbn; [|lia].
    apply Hlt in Hin. lia.
Qed.

Lemma set_state_id_row_run ids states table :
  row_run <$> set_state_id_on_inserted_flow_runs_statement ids states table
  = row_run <$> table.
Proof.
  unfold set_state_id_on_inserted_flow_runs_statement.
  rewrite <- list_fmap_compose. apply list_fmap_ext.
  intros _ row _. cbn. by destruct (decide _).
Qed.

Lemma set_state_id_untouched ids states table :
  (∀ row, row ∈ table → row_id row ∉ ids) →
  set_state_id_on_inserted_flow_runs_statement ids states table = table.
Proof.
  intros H. unfold set_state_id_on_inserted_flow_runs_statement.
  induction table as [|row table IH]; cbn; [done|].
  destruct (decide _) as [Hin|_].
  { destruct (H row); [by left|done]. }
  f_equal. apply IH. intros row' ?. apply H. by right.
Qed.

Lemma elem_of_set_state_id ids states table row :
  row ∈ set_state_id_on_inserted_flow_runs_statement ids states table →
  ∃ row0, row0 ∈ table ∧ row_run row = row_run row0 ∧
          (row_id row0 ∈ ids →
           row_state_id row
           = srow_id <$> head (filter (λ s, srow_flow_run_id s = row_id row0)
                                      states)) ∧
          (row_id row0 ∉ ids → row = row0).
Proof.
  unfold set_state_id_on_inserted_flow_runs_statement.
  intros (row0 & -> & Hin)%list_elem_of_fmap. exists row0. split; [done|].
  by destruct (decide _).
Qed.

(** ** The batch persister, step by step *)

(** A run that [_insert_scheduled_flow_runs] returns: the conflict-ignoring
    insert went through, the result is the candidates the probe names, their
    state rows were inserted and the pointers set. *)
Lemma persister_inv runs w rs w' :
  _insert_scheduled_flow_runs runs w = (inr rs, w') →
  ∃ t1,
    insert_on_conflict_do_nothing (flow_run_table w) runs = Some t1 ∧
    rs = filter (λ r, fr_id r ∈ inserted_rows (fr_id <$> runs) t1
                                  (flow_run_state_table w)) runs ∧
    deployment_table w' = deployment_table w ∧
    uuid_source w' = (uuid_source w + length rs)%nat ∧
    insert_flow_run_state_rows (flow_run_state_table w)
      (state_rows_from (uuid_source w) rs)
    = Some (flow_run_state_table w') ∧
    flow_run_table w'
    = set_state_id_on_inserted_flow_runs_statement
        (inserted_rows (fr_id <$> runs) t1 (flow_run_state_table w))
        (state_rows_from (uuid_source w) rs) t1.
Proof.
  unfold _insert_scheduled_flow_runs. destruct runs as [|r0 runs0].
  { intros [= <- <-]. exists (flow_run_table w). cbn.
    repeat split; auto with lia.
    rewrite set_state_id_untouched; [done|].
    intros row _ [[]%elem_of_nil _]%elem_of_inserted_rows. }
  set (runs := r0 :: runs0).
  intros (u & w1 & H1 & H)%bind_ok_inv.
  unfold execute_insert_flow_runs in H1.
  destruct (insert_on_conflict_do_nothing _ _) as [t1|] eqn:E; [|done].
  pair_inv H1.
  apply bind_ok_inv in H as (ids & w2 & H2 & H).
  unfold execute_inserted_rows in H2. pair_inv H2.
  apply bind_ok_inv in H as (states & w3 & H3 & H).
  rewrite for_each_state_rows in H3. pair_inv H3.
  apply bind_ok_inv in H as (u' & w4 & H4 & H).
  unfold ret in H. pair_inv H. world_simpl H4.
  exists t1. split; [done|]. world_simpl.
  change (fr_id r0 :: list_fmap _ _ fr_id runs0) with (fr_id <$> runs) in *.
  split; [done|].
  set (ids := inserted_rows _ _ _) in *.
  set (rs := filter _ runs) in *.
  destruct (state_rows_from (uuid_source w) rs) as [|s0 states] eqn:ES.
  - unfold ret in H4. pair_inv H4. world_simpl.
    apply state_rows_from_nil in ES. rewrite ES. cbn [length].
    repeat split; auto with lia.
    rewrite set_state_id_untouched; [done|].
    intros row _ Hin.
    pose proof Hin as (Hr & _)%elem_of_inserted_rows.
    apply list_elem_of_fmap in Hr as (r & Hr & Hrin).
    assert (r ∈ rs) as Hrs.
    { apply list_elem_of_filter. split; [by rewrite <- Hr|done]. }
    rewrite ES in Hrs. by apply elem_of_nil in Hrs.
  - apply bind_ok_inv in H4 as (u'' & w5 & H5 & H6).
    unfold execute_insert_flow_run_states in H5. world_simpl H5.
    destruct (insert_flow_run_state_rows _ _) as [t2|] eqn:E2; [|done].
    pair_inv H5.
    unfold execute_set_state_id in H6. pair_inv H6. world_simpl.
    repeat split; auto with lia.
Qed.

Lemma persister_total runs w :
  is_Some (insert_on_conflict_do_nothing (flow_run_table w) runs) →
  (∀ s, s ∈ flow_run_state_table w → (srow_id s < uuid_source w)%nat) →
  ∃ rs w', _insert_scheduled_flow_runs runs w = (inr rs, w').
Proof.
  intros [t1 E] Hlt. unfold _insert_scheduled_flow_runs.
  destruct runs as [|r0 runs0]; [unfold ret; eauto|].
  set (runs := r0 :: runs0) in *.
  erewrite bind_ok; [|unfold execute_insert_flow_runs; by rewrite E].
  erewrite bind_ok; [|by unfold execute_inserted_rows].
  erewrite bind_ok; [|by rewrite for_each_state_rows].
  world_simpl.
  set (rs := filter _ runs).
  destruct (state_rows_from (uuid_source w) rs) as [|s0 states] eqn:ES.
  - unfold bind, ret. eauto.
  - erewrite bind_ok; [unfold ret; eauto|].
    erewrite bind_ok; [by unfold execute_set_state_id|].
    unfold execute_insert_flow_run_states. world_simpl.
    by rewrite <- ES, insert_state_rows_succeeds.
Qed.

Lemma row_id_unlinked (runs : list FlowRun) :
  row_id <$> (unlinked_row <$> runs) = fr_id <$> runs.
Proof. by rewrite <- list_fmap_compose. Qed.

Lemma row_key_unlinked (runs : list FlowRun) :
  row_key <$> (unlinked_row <$> runs)
  = flow_run_unique_upsert_columns <$> runs.
Proof. by rewrite <- list_fmap_compose. Qed.

Lemma row_run_unlinked (runs : list FlowRun) :
  row_run <$> (unlinked_row <$> runs) = runs.
Proof. rewrite <- list_fmap_compose. apply list_fmap_id. Qed.

Lemma filter_sublist_ids {A B} (f : A → B) (P : A → Prop)
    `{!∀ x, Decision (P x)} (sub l : list A) :
  sub `sublist_of` l →
  NoDup (f <$> l) →
  (∀ x, x ∈ l → P x ↔ f x ∈ f <$> sub) →
  filter P l = sub.
Proof.
  induction 1 as [|x sub l Hsub IH|x sub l Hsub IH]; [done| |];
    rewrite fmap_cons; intros [Hx Hnd]%NoDup_cons HP.
  - rewrite filter_cons_True by (apply HP; left).
    f_equal. apply IH; [done|]. intros y Hy.
    rewrite HP by (by right). rewrite fmap_cons, elem_of_cons.
    split; [|auto].
    intros [Heq|?]; [|done]. destruct Hx. rewrite <- Heq.
    by apply list_elem_of_fmap_2.
  - rewrite filter_cons_False.
    + apply IH; [done|]. intros y Hy. apply HP. by right.
    + rewrite HP by left. intros (y & Heq & Hy)%list_elem_of_fmap.
      destruct Hx. rewrite Heq. apply list_elem_of_fmap_2.
      by eapply elem_of_sublist.
Qed.

(** With fresh candidate identifiers, the runs returned are exactly the rows
    the conflict-ignoring insert accepted. *)
Lemma persister_result runs w rs w' :
  fresh_candidates w runs →
  _insert_scheduled_flow_runs runs w = (inr rs, w') →
  rs = accepted (row_key <$> flow_run_table w) runs.
Proof.
  intros [Hnd Hfresh] (t1 & Hins & -> & _)%persister_inv.
  apply insert_accepted in Hins as ->.
  apply (filter_sublist_ids fr_id); [apply accepted_sublist|done|].
  intros r Hr. destruct (Hfresh r Hr) as (_ & Htab & Hst).
  rewrite elem_of_inserted_rows, fmap_app, elem_of_app, row_id_unlinked.
  split; [intros (_ & [?|?] & _); done|].
  intros ?. split; [by apply list_elem_of_fmap_2|]. auto.
Qed.

(** The tables after the persister returns. *)
Lemma persister_tables runs w rs w' :
  _insert_scheduled_flow_runs runs w = (inr rs, w') →
  row_run <$> flow_run_table w'
  = (row_run <$> flow_run_table w)
      ++ accepted (row_key <$> flow_run_table w) runs ∧
  flow_run_state_table w'
  = flow_run_state_table w ++ state_rows_from (uuid_source w) rs ∧
  uuid_source w' = (uuid_source w + length rs)%nat ∧
  deployment_table w' = deployment_table w.
Proof.
  intros (t1 & Hins & _ & Hdep & Hsrc & Hst & Htab)%persister_inv.
  apply insert_accepted in Hins as ->.
  apply insert_state_rows_app in Hst.
  rewrite Htab, set_state_id_row_run, fmap_app, row_run_unlinked. done.
Qed.

Lemma row_key_fmap (t : list FlowRunRow) :
  row_key <$> t = flow_run_unique_upsert_columns <$> (row_run <$> t).
Proof. by rewrite <- list_fmap_compose. Qed.

Lemma persister_keeps_unique_keys runs w rs w' :
  _insert_scheduled_flow_runs runs w = (inr rs, w') →
  unique_keys w → unique_keys w'.
Proof.
  intros (Htab & _)%persister_tables. unfold unique_keys.
  rewrite (row_key_fmap (flow_run_table w')), Htab, fmap_app, <- row_key_fmap.
  apply accepted_NoDup.
Qed.

Lemma persister_keeps_fresh_ids runs w rs w' :
  fresh_ids w → fresh_candidates w runs →
  _insert_scheduled_flow_runs runs w = (inr rs, w') →
  fresh_ids w'.
Proof.
  intros [Hrows Hstates] [Hnd Hfresh] H.
  pose proof (persister_result _ _ _ _ (conj Hnd Hfresh) H) as Hrs.
  destruct (persister_tables _ _ _ _ H) as (Htab & Hst & Hsrc & _).
  split.
  - intros row Hrow. rewrite Hsrc.
    assert (row_run row ∈ row_run <$> flow_run_table w') as Hin
      by (by apply list_elem_of_fmap_2).
    rewrite Htab in Hin. apply elem_of_app in Hin as [Hin|Hin].
    + apply list_elem_of_fmap in Hin as (row0 & Heq & Hin).
      apply Hrows in Hin. unfold row_id in *. rewrite Heq. lia.
    + apply accepted_elem_of, Hfresh in Hin as (? & _).
      unfold row_id. lia.
  - intros s. rewrite Hst, Hsrc. intros [Hs|Hs]%elem_of_app.
    + apply Hstates in Hs. lia.
    + assert (srow_id s ∈ srow_id <$> state_rows_from (uuid_source w) rs)
        as Hid by (by apply list_elem_of_fmap_2).
      rewrite state_rows_from_ids, elem_of_seq in Hid.
      apply elem_of_state_rows_from in Hs as (r & Hr & -> & _).
      rewrite Hrs in Hr. apply accepted_elem_of, Hfresh in Hr as (? & _).
      lia.
Qed.

Lemma generate_fresh deployment_id start_time end_time max_runs w runs w1 :
  fresh_ids w →
  _generate_scheduled_flow_runs deployment_id start_time end_time max_runs w
  = (inr runs, w1) →
  fresh_ids w1 ∧ fresh_candidates w1 runs.
Proof.
  intros [Hrows Hstates] [-> Hruns]%generate_inv.
  split; [split|split]; world_simpl.
  - intros row ?%Hrows. lia.
  - intros s ?%Hstates. lia.
  - destruct Hruns as [->|(d & sch & f & _ & _ & _ & _ & ->)];
      [constructor|apply candidates_from_NoDup].
  - intros r Hr.
    destruct Hruns as [->|(d & sch & f & _ & _ & _ & _ & ->)];
      [by apply elem_of_nil in Hr|].
    rewrite candidates_from_length.
    apply elem_of_candidates_from in Hr as (_ & _ & _ & Hlo & Hhi).
    split; [done|]. split.
    + intros (row & Heq & ?%Hrows)%list_elem_of_fmap. lia.
    + intros (s & Heq & ?%Hstates)%list_elem_of_fmap. lia.
Qed.

(** ** The orchestrator *)

Lemma schedule_runs_unfold settings deployment_id start_time end_time max_runs
    w :
  schedule_runs settings deployment_id start_time end_time max_runs w
  = bind (_generate_scheduled_flow_runs deployment_id
            (default (clock w) start_time)
            (default (default (clock w) start_time
                      + scheduler_max_scheduled_time settings) end_time)
            (default (scheduler_max_runs settings) max_runs))
         _insert_scheduled_flow_runs w.
Proof. unfold schedule_runs. by destruct start_time. Qed.

Lemma schedule_runs_keeps_fresh_ids settings deployment_id start_time end_time
    max_runs w rs w' :
  fresh_ids w →
  schedule_runs settings deployment_id start_time end_time max_runs w
  = (inr rs, w') →
  fresh_ids w'.
Proof.
  rewrite schedule_runs_unfold.
  intros Hw (runs & w1 & Hgen & Hins)%bind_ok_inv.
  destruct (generate_fresh _ _ _ _ _ _ _ Hw Hgen) as [Hw1 Hruns].
  by eapply persister_keeps_fresh_ids.
Qed.

Lemma persister_total_fresh runs w :
  fresh_ids w → fresh_candidates w runs →
  ∃ w', _insert_scheduled_flow_runs runs w
        = (inr (accepted (row_key <$> flow_run_table w) runs), w').
Proof.
  intros Hw Hruns.
  destruct (persister_total runs w) as (rs & w' & H).
  - destruct Hruns as [Hnd Hfresh]. apply insert_succeeds; [done|].
    intros r Hr. by apply Hfresh.
  - intros s Hs. by apply Hw.
  - exists w'. by rewrite <- (persister_result _ _ _ _ Hruns H).
Qed.

(** With fresh identifiers and a flow_id on the deployment, if there is one,
    [schedule_runs] returns. *)
Lemma schedule_runs_total
    settings deployment_id start_time end_time max_runs w :
  fresh_ids w →
  (∀ d, lookup_deployment w deployment_id = Some d →
        is_Some (dep_flow_id d)) →
  ∃ rs w',
    schedule_runs settings deployment_id start_time end_time max_runs w
    = (inr rs, w').
Proof.
  intros Hw Hflow. rewrite schedule_runs_unfold.
  set (s := default (clock w) start_time).
  set (e := default (s + scheduler_max_scheduled_time settings) end_time).
  set (n := default (scheduler_max_runs settings) max_runs).
  assert (∃ runs w1,
            _generate_scheduled_flow_runs deployment_id s e n w
            = (inr runs, w1)) as (runs & w1 & Hgen).
  { destruct (lookup_deployment w deployment_id) as [d|] eqn:Hl.
    2:{ rewrite generate_short by auto. eauto. }
    destruct (dep_schedule d) as [sch|] eqn:Hs.
    2:{ rewrite generate_short by eauto. eauto. }
    destruct (dep_is_schedule_active d) eqn:Ha.
    2:{ rewrite generate_short by eauto. eauto. }
    destruct (Hflow d eq_refl) as [f Hf].
    rewrite (generate_active _ _ _ _ _ d sch f) by done. eauto. }
  destruct (generate_fresh _ _ _ _ _ _ _ Hw Hgen) as [Hw1 Hruns].
  destruct (persister_total_fresh runs w1 Hw1 Hruns) as (w' & Hins).
  erewrite bind_ok by exact Hgen. eauto.
Qed.

(** ** Keys of the accepted rows *)

Lemma accepted_keys_NoDup keys rows :
  NoDup (flow_run_unique_upsert_columns <$> accepted keys rows).
Proof.
  revert keys. induction rows as [|r rows IH]; intros keys; cbn;
    [constructor|].
  destruct (decide _) as [|Hr]; [apply IH|].
  rewrite fmap_cons. apply NoDup_cons. split; [|apply IH].
  intros (r' & Heq & Hr')%list_elem_of_fmap.
  apply accepted_not_taken in Hr'. apply Hr'.
  rewrite <- Heq, elem_of_app, list_elem_of_singleton. auto.
Qed.

Lemma accepted_covers_key keys rows k :
  k ∈ flow_run_unique_upsert_columns <$> rows →
  k ∈ keys ++ (flow_run_unique_upsert_columns <$> accepted keys rows).
Proof.
  intros (r & -> & Hr)%list_elem_of_fmap. by apply accepted_covers.
Qed.

Lemma filter_ext_in {A} (P Q : A → Prop)
    `{!∀ x, Decision (P x)} `{!∀ x, Decision (Q x)} (l : list A) :
  (∀ x, x ∈ l → P x ↔ Q x) → filter P l = filter Q l.
Proof.
  induction l as [|x l IH]; intros Hext; [done|].
  rewrite !filter_cons.
  destruct (decide (P x)) as [HP|HP], (decide (Q x)) as [HQ|HQ].
  - f_equal. apply IH. intros y ?. apply Hext. by right.
  - destruct HQ. apply Hext; [left|done].
  - destruct HP. apply Hext; [left|done].
  - apply IH. intros y ?. apply Hext. by right.
Qed.

(** A persister call that returns nothing, every key being taken, leaves
    both tables as they were. *)
Lemma persister_nothing_new runs w w' :
  _insert_scheduled_flow_runs runs w = (inr [], w') →
  accepted (row_key <$> flow_run_table w) runs = [] →
  flow_run_table w' = flow_run_table w ∧
  flow_run_state_table w' = flow_run_state_table w.
Proof.
  intros (t1 & Hins & Hrs & _ & _ & Hst & Htab)%persister_inv Hacc.
  apply insert_accepted in Hins. rewrite Hacc, app_nil_r in Hins. subst t1.
  cbn in Hst. injection Hst as <-. split; [|done].
  rewrite Htab. apply set_state_id_untouched.
  intros row _ Hprobe.
  pose proof Hprobe as ((r & Heq & Hr)%list_elem_of_fmap & _)
      %elem_of_inserted_rows.
  assert (r ∈ @nil FlowRun) as []%elem_of_nil.
  rewrite Hrs. apply list_elem_of_filter. split; [|done]. by rewrite <- Heq.
Qed.

(** ** Checking freshness by computation *)

Lemma fresh_idsb_sound w : fresh_idsb w = true → fresh_ids w.
Proof.
  unfold fresh_idsb, fresh_ids.
  intros [H1 H2]%andb_true_iff. rewrite forallb_forall in H1, H2. split.
  - intros row Hrow%list_elem_of_In. apply H1 in Hrow.
    by apply Nat.ltb_lt in Hrow.
  - intros s Hs%list_elem_of_In. apply H2 in Hs.
    apply andb_true_iff in Hs as [?%Nat.ltb_lt ?%Nat.ltb_lt]. done.
Qed.

Lemma fresh_candidatesb_sound w runs :
  fresh_candidatesb w runs = true → fresh_candidates w runs.
Proof.
  unfold fresh_candidatesb, fresh_candidates.
  intros [H1 H2]%andb_true_iff. rewrite forallb_forall in H2. split.
  - by apply bool_decide_eq_true in H1.
  - intros r Hr%list_elem_of_In. apply H2 in Hr.
    apply andb_true_iff in Hr as [[? ?]%andb_true_iff ?].
    split; [by apply Nat.ltb_lt|].
    split; eapply bool_decide_eq_true_1; eassumption.
Qed.

Lemma returned_eq {A} (x : (Error + list A) * World) :
  is_ok x = true → x = (inr (returned x), world_after x).
Proof. by destruct x as [[e|l] w]. Qed.

(** * The claims *)

(** C9. Invoked with an empty list of candidates, the batch persister returns
    an empty list and leaves the world as it was: no statement is executed,
    no table changes, no identifier is drawn. *)
Theorem persister_empty_is_noop w :
  _insert_scheduled_flow_runs [] w = (inr [], w).
Proof. reflexivity. Qed.

(** C4. When the deployment does not exist, or has no schedule, or its
    schedule is inactive, [schedule_runs] returns the empty list, not an
    error; the only statement it executes is the [session.get] of the
    deployment, and the flow_run and flow_run_state tables are unchanged. *)
Theorem schedule_runs_short_circuit
    settings deployment_id start_time end_time max_runs w :
  (lookup_deployment w deployment_id = None ∨
   ∃ d, lookup_deployment w deployment_id = Some d ∧
        (dep_schedule d = None ∨ dep_is_schedule_active d = false)) →
  ∃ w', schedule_runs settings deployment_id start_time end_time max_runs w
        = (inr [], w') ∧
        flow_run_table w' = flow_run_table w ∧
        flow_run_state_table w' = flow_run_state_table w ∧
        executed w' = executed w ++ [SessionGet deployment_id].
Proof.
  intros H. exists (log (SessionGet deployment_id) w).
  rewrite schedule_runs_unfold.
  erewrite bind_ok by (by apply generate_short). done.
Qed.

Lemma schedule_runs_short_circuit_witness :
  ∃ w', schedule_runs settings0 8 None None None world0 = (inr [], w') ∧
        flow_run_table w' = flow_run_table world0 ∧
        flow_run_state_table w' = flow_run_state_table world0 ∧
        executed w' = executed world0 ++ [SessionGet 8].
Proof.
  apply schedule_runs_short_circuit.
  right. exists deployment_paused. split; [reflexivity|].
  right. reflexivity.
Defined.

(** C5. The idempotency key of a built candidate is a function of the
    deployment's identity and the scheduled timestamp alone: two builds for
    deployments of the same id and the same timestamp give the same key,
    whatever the other fields of the deployment, the [deployment_id]
    argument, the identifier drawn, and the world the build runs in. *)
Theorem idempotency_key_deterministic
    d1 d2 deployment_id1 deployment_id2 date w1 w2 r1 r2 w1' w2' :
  dep_id d1 = dep_id d2 →
  scheduled_flow_run d1 deployment_id1 date w1 = (inr r1, w1') →
  scheduled_flow_run d2 deployment_id2 date w2 = (inr r2, w2') →
  fr_idempotency_key r1 = scheduled_key (dep_id d1) date ∧
  fr_idempotency_key r1 = fr_idempotency_key r2.
Proof.
  unfold scheduled_flow_run, FlowRun_init. intros Hid H1 H2.
  destruct (dep_flow_id d1); [|done]. destruct (dep_flow_id d2); [|done].
  pair_inv H1. pair_inv H2. cbn. by rewrite Hid.
Qed.

Lemma idempotency_key_deterministic_witness :
  fr_idempotency_key (candidate deployment_D 7 3 100 3600)
  = scheduled_key 7 3600 ∧
  fr_idempotency_key (candidate deployment_D 7 3 100 3600)
  = fr_idempotency_key (candidate deployment_D_edited 8 4 105 3600).
Proof.
  apply (idempotency_key_deterministic
           deployment_D deployment_D_edited 7%nat 8%nat 3600
           world0 (set_clock 99 (advance_uuid 5 world0))
           (candidate deployment_D 7 3 100 3600)
           (candidate deployment_D_edited 8 4 105 3600)
           (advance_uuid 1 world0)
           (advance_uuid 1 (set_clock 99 (advance_uuid 5 world0)))).
  - reflexivity.
  - reflexivity.
  - reflexivity.
Defined.

(** C8. For a deployment snapshot without a [flow_id], building a candidate
    fails with InvalidDeploymentState and changes nothing; a [schedule_runs]
    whose enumerator yields a date is aborted with that error after the
    [session.get] alone: no statement on the run or state tables is executed
    and both tables are as before. *)
Theorem missing_flow_id_aborts
    settings deployment_id start_time end_time max_runs w d sch date w0 :
  lookup_deployment w deployment_id = Some d →
  dep_schedule d = Some sch →
  dep_is_schedule_active d = true →
  dep_flow_id d = None →
  get_dates sch
    (default (scheduler_max_runs settings) max_runs)
    (default (clock w) start_time)
    (default (default (clock w) start_time
              + scheduler_max_scheduled_time settings) end_time) ≠ [] →
  scheduled_flow_run d deployment_id date w0
  = (inl InvalidDeploymentState, w0) ∧
  ∃ w', schedule_runs settings deployment_id start_time end_time max_runs w
        = (inl InvalidDeploymentState, w') ∧
        flow_run_table w' = flow_run_table w ∧
        flow_run_state_table w' = flow_run_state_table w ∧
        executed w' = executed w ++ [SessionGet deployment_id].
Proof.
  intros Hl Hs Ha Hf Hd. split.
  - unfold scheduled_flow_run, FlowRun_init. by rewrite Hf.
  - exists (log (SessionGet deployment_id) w).
    rewrite schedule_runs_unfold.
    erewrite bind_err by (by eapply generate_invalid). done.
Qed.

Lemma missing_flow_id_aborts_witness :
  scheduled_flow_run deployment_no_flow 9 3600 world0
  = (inl InvalidDeploymentState, world0) ∧
  ∃ w', schedule_runs settings0 9 (Some 0) (Some 10800) (Some 10) world0
        = (inl InvalidDeploymentState, w') ∧
        flow_run_table w' = flow_run_table world0 ∧
        flow_run_state_table w' = flow_run_state_table world0 ∧
        executed w' = executed world0 ++ [SessionGet 9].
Proof.
  apply (missing_flow_id_aborts settings0 9%nat (Some 0) (Some 10800)
           (Some 10) world0 deployment_no_flow hourly3 3600 world0).
  - reflexivity.
  - reflexivity.
  - reflexivity.
  - reflexivity.
  - vm_compute. discriminate.
Defined.

(** What [schedule_runs] returns was generated from the deployment found and
    filtered by the persister. *)
Lemma schedule_runs_inv
    settings deployment_id start_time end_time max_runs w rs w' :
  schedule_runs settings deployment_id start_time end_time max_runs w
  = (inr rs, w') →
  ∃ runs,
    _generate_scheduled_flow_runs deployment_id
      (default (clock w) start_time)
      (default (default (clock w) start_time
                + scheduler_max_scheduled_time settings) end_time)
      (default (scheduler_max_runs settings) max_runs) w
    = (inr runs,
       advance_uuid (length runs) (log (SessionGet deployment_id) w)) ∧
    _insert_scheduled_flow_runs runs
      (advance_uuid (length runs) (log (SessionGet deployment_id) w))
    = (inr rs, w').
Proof.
  rewrite schedule_runs_unfold.
  intros (runs & w1 & Hgen & Hins)%bind_ok_inv.
  pose proof Hgen as [-> _]%generate_inv. eauto.
Qed.

Lemma persister_returns_sublist runs w rs w' :
  _insert_scheduled_flow_runs runs w = (inr rs, w') → rs `sublist_of` runs.
Proof.
  intros (t1 & _ & -> & _)%persister_inv. apply sublist_filter.
Qed.

(** C7. The candidate built for a deployment and a timestamp has the tags
    "auto-scheduled" followed by the deployment's (as a set: the union of
    {"auto-scheduled"} with the deployment's tags), the deployment's flow_id
    and parameters, and the identifier just drawn, which no stored row
    carries; the runs [schedule_runs] returns have distinct identifiers and
    each is stored in the flow_run table with every column, the identifier
    included, as built. *)
Theorem candidate_fields_and_identity
    settings deployment_id start_time end_time max_runs w d rs w'
    date w0 r w0' :
  lookup_deployment w deployment_id = Some d →
  fresh_ids w0 →
  scheduled_flow_run d deployment_id date w0 = (inr r, w0') →
  fresh_ids w →
  schedule_runs settings deployment_id start_time end_time max_runs w
  = (inr rs, w') →
  (fr_tags r = "auto-scheduled" :: dep_tags d ∧
   list_to_set (C := gset string) (fr_tags r)
   = {[ "auto-scheduled" ]} ∪ list_to_set (dep_tags d) ∧
   dep_flow_id d = Some (fr_flow_id r) ∧
   fr_parameters r = dep_parameters d ∧
   fr_id r = uuid_source w0 ∧
   uuid_source w0' = S (uuid_source w0) ∧
   fr_id r ∉ row_id <$> flow_run_table w0) ∧
  NoDup (fr_id <$> rs) ∧
  Forall (λ r',
            fr_tags r' = "auto-scheduled" :: dep_tags d ∧
            dep_flow_id d = Some (fr_flow_id r') ∧
            fr_parameters r' = dep_parameters d ∧
            (uuid_source w ≤ fr_id r')%nat ∧
            (fr_id r' ∉ row_id <$> flow_run_table w) ∧
            ∃ row, row ∈ flow_run_table w' ∧ row_run row = r') rs.
Proof.
  intros Hl [Hrows0 _] Hbuild Hw Hrun. split; [|split].
  - unfold scheduled_flow_run, FlowRun_init in Hbuild.
    destruct (dep_flow_id d) as [f|]; [|done]. pair_inv Hbuild. cbn.
    repeat split; try done.
    intros (row & Heq & ?%Hrows0)%list_elem_of_fmap. lia.
  - apply schedule_runs_inv in Hrun as (runs & Hgen & Hins).
    apply persister_returns_sublist in Hins.
    apply (sublist_NoDup _ (fr_id <$> runs)); [|by apply fmap_sublist].
    apply generate_inv in Hgen as [_ [->|(? & ? & ? & _ & _ & _ & _ & ->)]];
      [constructor|apply candidates_from_NoDup].
  - apply Forall_forall. intros r' Hr'.
    apply schedule_runs_inv in Hrun as (runs & Hgen & Hins).
    destruct (generate_fresh _ _ _ _ _ _ _ Hw Hgen) as [Hw1 Hruns].
    pose proof (persister_result _ _ _ _ Hruns Hins) as Hrs.
    destruct (persister_tables _ _ _ _ Hins) as (Htab & _).
    rewrite <- Hrs in Htab.
    pose proof (elem_of_sublist _ _ _ Hr'
                  (persister_returns_sublist _ _ _ _ Hins)) as Hin.
    apply generate_inv in Hgen
      as [_ [->|(d' & sch & f & Hl' & _ & _ & Hf & ->)]];
      [by apply elem_of_nil in Hin|].
    rewrite Hl in Hl'. injection Hl' as <-.
    apply elem_of_candidates_from in Hin as (date' & _ & Hr & Hlo & _).
    assert (r' ∈ row_run <$> flow_run_table w') as Hrow.
    { rewrite Htab. apply elem_of_app. by right. }
    apply list_elem_of_fmap in Hrow as (row & Hrow & ?).
    split; [by rewrite Hr|]. split; [by rewrite Hr|].
    split; [by rewrite Hr|]. split; [done|]. split; [|eauto].
    destruct Hw as [Hrows _].
    intros (row' & Heq & ?%Hrows)%list_elem_of_fmap. lia.
Qed.

Lemma candidate_fields_and_identity_witness :
  (fr_tags (candidate deployment_D 7 3 100 3600) = ["auto-scheduled"; "prod"] ∧
   list_to_set (C := gset string)
     (fr_tags (candidate deployment_D 7 3 100 3600))
   = {[ "auto-scheduled" ]} ∪ list_to_set (dep_tags deployment_D) ∧
   dep_flow_id deployment_D
   = Some (fr_flow_id (candidate deployment_D 7 3 100 3600)) ∧
   fr_parameters (candidate deployment_D 7 3 100 3600)
   = dep_parameters deployment_D ∧
   fr_id (candidate deployment_D 7 3 100 3600) = uuid_source world0 ∧
   uuid_source (advance_uuid 1 world0) = S (uuid_source world0) ∧
   fr_id (candidate deployment_D 7 3 100 3600)
     ∉ row_id <$> flow_run_table world0) ∧
  NoDup (fr_id <$> runs1) ∧
  Forall (λ r',
            fr_tags r' = "auto-scheduled" :: dep_tags deployment_D ∧
            dep_flow_id deployment_D = Some (fr_flow_id r') ∧
            fr_parameters r' = dep_parameters deployment_D ∧
            (uuid_source world0 ≤ fr_id r')%nat ∧
            (fr_id r' ∉ row_id <$> flow_run_table world0) ∧
            ∃ row, row ∈ flow_run_table world1 ∧ row_run row = r') runs1.
Proof.
  apply (candidate_fields_and_identity
           settings0 7%nat (Some 0) (Some 10800) (Some 10) world0 deployment_D
           runs1 world1 3600 world0 (candidate deployment_D 7 3 100 3600)
           (advance_uuid 1 world0)).
  - reflexivity.
  - apply fresh_idsb_sound. reflexivity.
  - reflexivity.
  - apply fresh_idsb_sound. reflexivity.
  - apply (returned_eq first_call). vm_compute. reflexivity.
Defined.

(** C6. When the deployment's enumerator, called with the effective
    [max_runs], [start_time] and [end_time], returns at most [max_runs]
    timestamps, all in [[start_time, end_time)], every run [schedule_runs]
    returns is scheduled within that window and there are at most [max_runs]
    of them. *)
Theorem returned_runs_in_window
    settings deployment_id start_time end_time max_runs w d sch rs w' :
  lookup_deployment w deployment_id = Some d →
  dep_schedule d = Some sch →
  enumerator_contract sch
    (default (scheduler_max_runs settings) max_runs)
    (default (clock w) start_time)
    (default (default (clock w) start_time
              + scheduler_max_scheduled_time settings) end_time) →
  schedule_runs settings deployment_id start_time end_time max_runs w
  = (inr rs, w') →
  Forall (in_window
            (default (clock w) start_time)
            (default (default (clock w) start_time
                      + scheduler_max_scheduled_time settings) end_time)) rs ∧
  Z.of_nat (length rs) ≤ default (scheduler_max_runs settings) max_runs.
Proof.
  intros Hl Hs [Hlen Hwin] (runs & Hgen & Hins)%schedule_runs_inv.
  pose proof (persister_returns_sublist _ _ _ _ Hins) as Hsub.
  apply generate_inv in Hgen
    as [_ [->|(d' & sch' & f & Hl' & Hs' & _ & _ & ->)]].
  - apply sublist_nil_r in Hsub as ->. split; [constructor|]. cbn. lia.
  - rewrite Hl in Hl'. injection Hl' as <-.
    rewrite Hs in Hs'. injection Hs' as <-. split.
    + apply Forall_forall. intros r Hr.
      apply (elem_of_sublist _ _ _ Hr) in Hsub.
      apply elem_of_candidates_from in Hsub as (date & Hdate & -> & _).
      rewrite Forall_forall in Hwin. apply Hwin in Hdate. by split.
    + apply sublist_length in Hsub. rewrite candidates_from_length in Hsub.
      lia.
Qed.

Lemma returned_runs_in_window_witness :
  Forall (in_window 0 10800) runs1 ∧ Z.of_nat (length runs1) ≤ 10.
Proof.
  apply (returned_runs_in_window
           settings0 7%nat (Some 0) (Some 10800) (Some 10) world0
           deployment_D hourly3 runs1 world1).
  - reflexivity.
  - reflexivity.
  - split; [vm_compute; discriminate|].
    repeat constructor; cbn; lia.
  - apply (returned_eq first_call). vm_compute. reflexivity.
Defined.

Lemma set_state_id_keeps_row ids states table row0 :
  row0 ∈ table →
  ∃ row, row ∈ set_state_id_on_inserted_flow_runs_statement ids states table ∧
         row_run row = row_run row0.
Proof.
  intros Hin.
  assert (row_run row0
          ∈ row_run <$> set_state_id_on_inserted_flow_runs_statement
                          ids states table) as Hrow.
  { rewrite set_state_id_row_run. by apply list_elem_of_fmap_2. }
  apply list_elem_of_fmap in Hrow as (row & ? & ?). eauto.
Qed.

(** C3. After [schedule_runs] returns, every returned run has a state record
    of kind SCHEDULED whose scheduled time is the run's, and every flow_run
    row of that run (there is one) has its [state_id] set to that record: no
    returned run is left without a linked state. *)
Theorem returned_runs_are_linked
    settings deployment_id start_time end_time max_runs w rs w' :
  schedule_runs settings deployment_id start_time end_time max_runs w
  = (inr rs, w') →
  Forall (linked_scheduled w') rs.
Proof.
  intros (runs & Hgen & Hins)%schedule_runs_inv.
  set (w1 := advance_uuid _ _) in *.
  apply Forall_forall. intros r Hr.
  pose proof (persister_returns_sublist _ _ _ _ Hins) as Hsub.
  pose proof (elem_of_sublist _ _ _ Hr Hsub) as Hin.
  assert (NoDup (fr_id <$> runs) ∧
          fr_state r = Scheduled (fr_next_scheduled_start_time r)
                         "Flow run scheduled") as [Hnd Hstate].
  { apply generate_inv in Hgen
      as [_ [->|(d & sch & f & _ & _ & _ & _ & ->)]];
      [by apply elem_of_nil in Hin|].
    split; [apply candidates_from_NoDup|].
    by apply elem_of_candidates_from in Hin as (date & _ & -> & _). }
  assert (NoDup (fr_id <$> rs)) as Hnd'
    by (by apply (sublist_NoDup _ (fr_id <$> runs)); [|apply fmap_sublist]).
  destruct (state_rows_from_head (uuid_source w1) rs r Hnd' Hr)
    as (s & Hhead & Hs & Hid & Hst).
  apply persister_inv in Hins as (t1 & _ & Hrs & _ & _ & Hins2 & Htab).
  apply insert_state_rows_app in Hins2.
  exists s. split; [rewrite Hins2, elem_of_app; by right|].
  split; [done|]. rewrite Hst, Hstate. split; [done|]. split; [done|].
  assert (fr_id r ∈ inserted_rows (fr_id <$> runs) t1
                      (flow_run_state_table w1)) as Hprobe.
  { rewrite Hrs in Hr. by apply list_elem_of_filter in Hr as [? _]. }
  rewrite Htab. split.
  - pose proof Hprobe as (_ & (row0 & Heq & Hrow0)%list_elem_of_fmap & _)
        %elem_of_inserted_rows.
    destruct (set_state_id_keeps_row
                (inserted_rows (fr_id <$> runs) t1 (flow_run_state_table w1))
                (state_rows_from (uuid_source w1) rs) t1 row0 Hrow0)
      as (row & ? & Hrun).
    exists row. split; [done|]. unfold row_id in *. by rewrite Hrun.
  - intros row (row0 & _ & Hrun & Hset & _)%elem_of_set_state_id Hrow.
    assert (row_id row0 = fr_id r) as Hid0
      by (unfold row_id in *; by rewrite <- Hrun).
    rewrite Hset, Hid0, Hhead by (by rewrite Hid0). done.
Qed.

Lemma returned_runs_are_linked_witness :
  Forall (linked_scheduled world1) runs1.
Proof.
  apply (returned_runs_are_linked
           settings0 7%nat (Some 0) (Some 10800) (Some 10) world0).
  apply (returned_eq first_call). vm_compute. reflexivity.
Defined.

(** C2. Given candidates with fresh identifiers, the batch persister returns,
    in order, exactly the candidates whose identifier, after the
    conflict-ignoring insert, names a flow_run row and has no state record.
    No returned candidate has an idempotency key that was stored before, no
    two returned candidates share a key, and the keys stored afterwards are
    the keys stored before followed by those of the returned candidates: one
    row per new key. *)
Theorem persister_returns_new_rows runs w :
  fresh_ids w →
  fresh_candidates w runs →
  ∃ rs w' t1,
    _insert_scheduled_flow_runs runs w = (inr rs, w') ∧
    insert_on_conflict_do_nothing (flow_run_table w) runs = Some t1 ∧
    rs = filter (λ r, fr_id r ∈ row_id <$> t1 ∧
                      fr_id r ∉ srow_flow_run_id <$> flow_run_state_table w)
                runs ∧
    Forall (λ r, fr_idempotency_key r ∉ row_key <$> flow_run_table w) rs ∧
    NoDup (fr_idempotency_key <$> rs) ∧
    row_key <$> flow_run_table w'
    = (row_key <$> flow_run_table w) ++ (fr_idempotency_key <$> rs).
Proof.
  intros Hw Hruns.
  destruct (persister_total_fresh runs w Hw Hruns) as (w' & H).
  set (rs := accepted _ runs) in *.
  pose proof H as (t1 & Hins & Hrs & _)%persister_inv.
  exists rs, w', t1. split; [done|]. split; [done|]. split; [|split; [|split]].
  - rewrite Hrs at 1. apply filter_ext_in. intros r Hr.
    rewrite elem_of_inserted_rows. split; [by intros (_ & ? & ?)|].
    intros [? ?]. split; [by apply list_elem_of_fmap_2|done].
  - apply Forall_forall. intros r Hr. by apply accepted_not_taken in Hr.
  - apply accepted_keys_NoDup.
  - destruct (persister_tables _ _ _ _ H) as (Htab & _).
    by rewrite (row_key_fmap (flow_run_table w')), Htab, fmap_app,
      <- row_key_fmap.
Qed.

Lemma persister_returns_new_rows_witness :
  ∃ rs w' t1,
    _insert_scheduled_flow_runs overlapping_candidates world1_drawn
    = (inr rs, w') ∧
    insert_on_conflict_do_nothing (flow_run_table world1_drawn)
      overlapping_candidates = Some t1 ∧
    rs = filter (λ r, fr_id r ∈ row_id <$> t1 ∧
                      fr_id r
                      ∉ srow_flow_run_id <$> flow_run_state_table world1_drawn)
                overlapping_candidates ∧
    Forall (λ r, fr_idempotency_key r
                 ∉ row_key <$> flow_run_table world1_drawn) rs ∧
    NoDup (fr_idempotency_key <$> rs) ∧
    row_key <$> flow_run_table w'
    = (row_key <$> flow_run_table world1_drawn)
        ++ (fr_idempotency_key <$> rs).
Proof.
  apply persister_returns_new_rows.
  - apply fresh_idsb_sound. vm_compute. reflexivity.
  - apply fresh_candidatesb_sound. vm_compute. reflexivity.
Defined.

(** C1, as amended. For a deployment with an active schedule and a flow_id,
    two calls of [schedule_runs] in sequence with the same deployment_id,
    start_time, end_time and max_runs (and, where start_time is omitted, the
    same current time) both return; the second returns the empty list and
    leaves both tables as the first left them; the first returns the empty
    list exactly when every timestamp the enumerator yields has its
    idempotency key stored already. No key is stored twice: the runs of the
    first call have distinct keys, none stored before, and the keys stored
    after it are the old ones followed by theirs. *)
Theorem schedule_runs_twice
    settings deployment_id start_time end_time max_runs w d sch f c :
  fresh_ids w →
  lookup_deployment w deployment_id = Some d →
  dep_schedule d = Some sch →
  dep_is_schedule_active d = true →
  dep_flow_id d = Some f →
  default c start_time = default (clock w) start_time →
  ∃ rs w1 w2,
    schedule_runs settings deployment_id start_time end_time max_runs w
    = (inr rs, w1) ∧
    schedule_runs settings deployment_id start_time end_time max_runs
      (set_clock c w1)
    = (inr [], w2) ∧
    flow_run_table w2 = flow_run_table w1 ∧
    flow_run_state_table w2 = flow_run_state_table w1 ∧
    (rs = [] ↔
     Forall (λ date, scheduled_key (dep_id d) date
                     ∈ row_key <$> flow_run_table w)
            (get_dates sch
               (default (scheduler_max_runs settings) max_runs)
               (default (clock w) start_time)
               (default (default (clock w) start_time
                         + scheduler_max_scheduled_time settings)
                        end_time))) ∧
    NoDup (fr_idempotency_key <$> rs) ∧
    Forall (λ r, fr_idempotency_key r ∉ row_key <$> flow_run_table w) rs ∧
    row_key <$> flow_run_table w1
    = (row_key <$> flow_run_table w) ++ (fr_idempotency_key <$> rs).
Proof.
  intros Hw Hl Hs Ha Hf Hc.
  set (n := default (scheduler_max_runs settings) max_runs).
  set (s := default (clock w) start_time) in *.
  set (e := default (s + scheduler_max_scheduled_time settings) end_time).
  set (dates := get_dates sch n s e).
  (* the first call *)
  pose proof (generate_active deployment_id s e n w d sch f Hl Hs Ha Hf)
    as Hgen1.
  fold dates in Hgen1.
  set (runs1 := candidates_from d deployment_id f (uuid_source w) dates) in *.
  set (wg1 := advance_uuid (length dates)
                (log (SessionGet deployment_id) w)) in *.
  destruct (generate_fresh _ _ _ _ _ _ _ Hw Hgen1) as [Hwg1 Hruns1].
  destruct (persister_total_fresh runs1 wg1 Hwg1 Hruns1) as (w1 & Hins1).
  assert (flow_run_table wg1 = flow_run_table w) as Htg1 by done.
  rewrite Htg1 in Hins1.
  set (rs := accepted (row_key <$> flow_run_table w) runs1) in *.
  destruct (persister_tables _ _ _ _ Hins1) as (Htab1 & _ & _ & Hdep1).
  rewrite Htg1 in Htab1. fold rs in Htab1.
  assert (row_key <$> flow_run_table w1
          = (row_key <$> flow_run_table w) ++ (fr_idempotency_key <$> rs))
    as Hkeys1
    by (by rewrite (row_key_fmap (flow_run_table w1)), Htab1, fmap_app,
          <- row_key_fmap).
  (* the second call *)
  pose proof (persister_keeps_fresh_ids _ _ _ _ Hwg1 Hruns1 Hins1) as Hw1.
  assert (fresh_ids (set_clock c w1)) as Hw1c by done.
  assert (lookup_deployment (set_clock c w1) deployment_id = Some d) as Hl2.
  { unfold lookup_deployment in *. world_simpl. by rewrite Hdep1. }
  pose proof (generate_active deployment_id s e n (set_clock c w1)
                d sch f Hl2 Hs Ha Hf) as Hgen2.
  fold dates in Hgen2.
  set (runs2 := candidates_from d deployment_id f
                  (uuid_source (set_clock c w1)) dates) in *.
  set (wg2 := advance_uuid (length dates)
                (log (SessionGet deployment_id) (set_clock c w1))) in *.
  destruct (generate_fresh _ _ _ _ _ _ _ Hw1c Hgen2) as [Hwg2 Hruns2].
  destruct (persister_total_fresh runs2 wg2 Hwg2 Hruns2) as (w2 & Hins2).
  assert (flow_run_table wg2 = flow_run_table w1) as Htg2 by done.
  assert (accepted (row_key <$> flow_run_table wg2) runs2 = []) as Hnil.
  { apply accepted_nil. intros r Hr. rewrite Htg2, Hkeys1.
    apply accepted_covers_key.
    unfold flow_run_unique_upsert_columns, runs1.
    rewrite candidates_from_keys,
      <- (candidates_from_keys d deployment_id f
            (uuid_source (set_clock c w1)) dates).
    by apply list_elem_of_fmap_2. }
  rewrite Hnil in Hins2.
  destruct (persister_nothing_new _ _ _ Hins2 Hnil) as [Ht2 Hs2].
  exists rs, w1, w2. repeat split.
  - rewrite schedule_runs_unfold. by erewrite bind_ok by exact Hgen1.
  - rewrite schedule_runs_unfold. world_simpl. rewrite Hc.
    by erewrite bind_ok by exact Hgen2.
  - by rewrite Ht2.
  - by rewrite Hs2.
  - unfold rs. intros Hnone.
    pose proof (proj1 (accepted_nil _ _) Hnone) as Hrs.
    apply Forall_forall. intros date Hdate.
    assert (scheduled_key (dep_id d) date
            ∈ fr_idempotency_key <$> runs1) as (r & -> & Hr)%list_elem_of_fmap.
    { unfold runs1. rewrite candidates_from_keys.
      by apply list_elem_of_fmap_2. }
    by apply Hrs.
  - intros Hall. apply accepted_nil. intros r Hr.
    rewrite Forall_forall in Hall.
    apply elem_of_candidates_from in Hr as (date & Hdate & -> & _).
    by apply Hall.
  - apply accepted_keys_NoDup.
  - apply Forall_forall. intros r Hr. by apply accepted_not_taken in Hr.
  - done.
Qed.

Lemma schedule_runs_twice_witness :
  ∃ rs w1 w2,
    schedule_runs settings0 7 (Some 0) (Some 10800) (Some 10) world0
    = (inr rs, w1) ∧
    schedule_runs settings0 7 (Some 0) (Some 10800) (Some 10)
      (set_clock 500 w1)
    = (inr [], w2) ∧
    flow_run_table w2 = flow_run_table w1 ∧
    flow_run_state_table w2 = flow_run_state_table w1 ∧
    (rs = [] ↔
     Forall (λ date, scheduled_key (dep_id deployment_D) date
                     ∈ row_key <$> flow_run_table world0)
            (get_dates hourly3
               (default (scheduler_max_runs settings0) (Some 10))
               (default (clock world0) (Some 0))
               (default (default (clock world0) (Some 0)
                         + scheduler_max_scheduled_time settings0)
                        (Some 10800)))) ∧
    NoDup (fr_idempotency_key <$> rs) ∧
    Forall (λ r, fr_idempotency_key r ∉ row_key <$> flow_run_table world0)
           rs ∧
    row_key <$> flow_run_table w1
    = (row_key <$> flow_run_table world0) ++ (fr_idempotency_key <$> rs).
Proof.
  apply (schedule_runs_twice settings0 7%nat (Some 0) (Some 10800) (Some 10)
           world0 deployment_D hourly3 3%nat 500).
  - apply fresh_idsb_sound. reflexivity.
  - reflexivity.
  - reflexivity.
  - reflexivity.
  - reflexivity.
  - reflexivity.
Defined.

(** C1, as stated, fails: deployment 7 has an active schedule, but no date of
    it lies in the window [[20000, 30000)], and the first call returns the
    empty list. *)
Lemma idempotence_as_stated_fails : ¬ idempotence_as_stated.
Proof.
  intros H.
  destruct (H settings0 7%nat (Some 20000) (Some 30000) (Some 10) world0
              deployment_D hourly3)
    as (rs & w1 & w2 & H1 & Hne & _).
  - apply fresh_idsb_sound. reflexivity.
  - reflexivity.
  - reflexivity.
  - reflexivity.
  - assert ((schedule_runs settings0 7 (Some 20000) (Some 30000) (Some 10)
               world0).1 = inr []) as Hfirst by (vm_compute; reflexivity).
    rewrite H1 in Hfirst. apply Hne. by injection Hfirst.
Qed.

(** ** The example of the specification, run on the model *)

Example first_call_returns_three :
  (λ r, (fr_id r, fr_idempotency_key r, fr_tags r)) <$> runs1
  = [(100%nat, "scheduled 7 0", ["auto-scheduled"; "prod"]);
     (101%nat, "scheduled 7 3600", ["auto-scheduled"; "prod"]);
     (102%nat, "scheduled 7 7200", ["auto-scheduled"; "prod"])].
Proof. vm_compute. reflexivity. Qed.

Example first_call_links_states :
  (λ row, (row_id row, row_state_id row)) <$> flow_run_table world1
  = [(100%nat, Some 103%nat); (101%nat, Some 104%nat);
     (102%nat, Some 105%nat)] ∧
  (λ s, (srow_id s, srow_flow_run_id s, st_type (srow_state s),
         st_scheduled_time (srow_state s))) <$> flow_run_state_table world1
  = [(103%nat, 100%nat, SCHEDULED, 0); (104%nat, 101%nat, SCHEDULED, 3600);
     (105%nat, 102%nat, SCHEDULED, 7200)].
Proof. split; vm_compute; reflexivity. Qed.

Example second_call_returns_none :
  (schedule_runs settings0 7 (Some 0) (Some 10800) (Some 10) world1).1
  = inr [].
Proof. vm_compute. reflexivity. Qed.

Example third_call_overlapping_returns_none :
  (schedule_runs settings0 7 (Some 7200) (Some 18000) (Some 10) world1).1
  = inr [].
Proof. vm_compute. reflexivity. Qed.

Example overlapping_candidates_one_new :
  (_insert_scheduled_flow_runs overlapping_candidates world1_drawn).1
  = inr [candidate deployment_D 7 3 107 10800].
Proof. vm_compute. reflexivity. Qed.

Example empty_window_returns_none :
  (schedule_runs settings0 7 (Some 20000) (Some 30000) (Some 10) world0).1
  = inr [].
Proof. vm_compute. reflexivity. Qed.

(** * Further properties of the scheduling functions *)

(** ** Helper lemmas *)

Lemma schedule_runs_fresh_inv
    settings deployment_id start_time end_time max_runs w rs w' :
  fresh_ids w →
  schedule_runs settings deployment_id start_time end_time max_runs w
  = (inr rs, w') →
  ∃ runs,
    _generate_scheduled_flow_runs deployment_id
      (default (clock w) start_time)
      (default (default (clock w) start_time
                + scheduler_max_scheduled_time settings) end_time)
      (default (scheduler_max_runs settings) max_runs) w
    = (inr runs,
       advance_uuid (length runs) (log (SessionGet deployment_id) w)) ∧
    fresh_ids (advance_uuid (length runs) (log (SessionGet deployment_id) w)) ∧
    fresh_candidates
      (advance_uuid (length runs) (log (SessionGet deployment_id) w)) runs ∧
    _insert_scheduled_flow_runs runs
      (advance_uuid (length runs) (log (SessionGet deployment_id) w))
    = (inr rs, w') ∧
    rs = accepted (row_key <$> flow_run_table w) runs.
Proof.
  intros Hw (runs & Hgen & Hins)%schedule_runs_inv.
  destruct (generate_fresh _ _ _ _ _ _ _ Hw Hgen) as [Hwg Hruns].
  exists runs. split; [done|]. split; [done|]. split; [done|].
  split; [done|]. apply (persister_result _ _ _ _ Hruns Hins).
Qed.

Lemma state_rows_from_app i pre runs :
  state_rows_from i (pre ++ runs)
  = state_rows_from i pre ++ state_rows_from (i + length pre) runs.
Proof.
  revert i. induction pre as [|r pre IH]; intros i; cbn.
  - by rewrite Nat.add_0_r.
  - rewrite IH. do 3 f_equal. lia.
Qed.

Lemma state_rows_from_filter_none i runs (j : UUID) :
  j ∉ fr_id <$> runs →
  filter (λ s, srow_flow_run_id s = j) (state_rows_from i runs) = [].
Proof.
  revert i. induction runs as [|r runs IH]; intros i Hj; [done|].
  cbn [state_rows_from].
  rewrite fmap_cons, not_elem_of_cons in Hj. destruct Hj as [Hne Hj].
  rewrite filter_cons_False by (cbn; congruence). by apply IH.
Qed.

Lemma set_state_id_linked ids i pre runs :
  NoDup (fr_id <$> pre ++ runs) →
  (∀ r, r ∈ runs → fr_id r ∈ ids) →
  set_state_id_on_inserted_flow_runs_statement ids
    (state_rows_from i (pre ++ runs)) (unlinked_row <$> runs)
  = linked_rows (i + length pre) runs.
Proof.
  revert pre. induction runs as [|r runs IH]; intros pre Hnd Hids; [done|].
  unfold set_state_id_on_inserted_flow_runs_statement in *.
  rewrite !fmap_cons. cbn [linked_rows]. f_equal.
  - unfold row_id at 1 2. cbn [row_run unlinked_row].
    rewrite decide_True by (apply Hids; left).
    rewrite state_rows_from_app, filter_app.
    rewrite state_rows_from_filter_none.
    + cbn [state_rows_from app]. by rewrite filter_cons_True by done.
    + rewrite fmap_app in Hnd. apply NoDup_app in Hnd as (_ & Hdis & _).
      intros Hin. apply (Hdis _ Hin). rewrite fmap_cons. left.
  - specialize (IH (pre ++ [r])).
    rewrite <- app_assoc, length_app in IH. cbn in IH.
    rewrite Nat.add_assoc, Nat.add_1_r in IH.
    rewrite <- Nat.add_succ_r, Nat.add_succ_r.
    apply IH; [done|]. intros r' ?. apply Hids. by right.
Qed.

(** With fresh identifiers the persister only appends: the stored rows stay
    as they are, the returned runs follow, each linked to its state row. *)
Lemma persister_appends runs w rs w' :
  fresh_ids w → fresh_candidates w runs →
  _insert_scheduled_flow_runs runs w = (inr rs, w') →
  flow_run_table w' = flow_run_table w ++ linked_rows (uuid_source w) rs ∧
  flow_run_state_table w'
  = flow_run_state_table w ++ state_rows_from (uuid_source w) rs.
Proof.
  intros Hw Hruns H.
  pose proof (persister_result _ _ _ _ Hruns H) as Hrs.
  destruct (persister_tables _ _ _ _ H) as (_ & Hst & _).
  split; [|done].
  pose proof H as (t1 & Hins & Hfilter & _ & _ & _ & Htab)%persister_inv.
  apply insert_accepted in Hins. rewrite <- Hrs in Hins. subst t1.
  rewrite Htab. unfold set_state_id_on_inserted_flow_runs_statement.
  rewrite fmap_app. f_equal.
  - apply set_state_id_untouched. intros row Hrow Hprobe.
    apply elem_of_inserted_rows in Hprobe
      as ((r & Heq & Hr)%list_elem_of_fmap & _).
    destruct Hruns as [_ Hfresh]. destruct (Hfresh r Hr) as (_ & Hno & _).
    apply Hno. rewrite <- Heq. by apply list_elem_of_fmap_2.
  - pose proof (set_state_id_linked
                  (inserted_rows (fr_id <$> runs)
                     (flow_run_table w ++ (unlinked_row <$> rs))
                     (flow_run_state_table w))
                  (uuid_source w) [] rs) as Hlink.
    cbn [app length] in Hlink. rewrite Nat.add_0_r in Hlink.
    apply Hlink.
    + apply (sublist_NoDup _ (fr_id <$> runs)); [apply Hruns|].
      apply fmap_sublist. rewrite Hrs. apply accepted_sublist.
    + intros r Hr. rewrite Hfilter in Hr.
      by apply list_elem_of_filter in Hr as [? _].
Qed.

Lemma linked_rows_runs i runs : row_run <$> linked_rows i runs = runs.
Proof.
  revert i. induction runs as [|r runs IH]; intros i; [done|].
  cbn. by rewrite IH.
Qed.

Lemma linked_rows_ids i runs : row_id <$> linked_rows i runs = fr_id <$> runs.
Proof.
  change row_id with (fr_id ∘ row_run).
  by rewrite list_fmap_compose, linked_rows_runs.
Qed.

Lemma linked_rows_state i runs row :
  row ∈ linked_rows i runs →
  ∃ s, s ∈ state_rows_from i runs ∧
       row_state_id row = Some (srow_id s) ∧
       srow_flow_run_id s = row_id row.
Proof.
  revert i. induction runs as [|r runs IH]; intros i; cbn.
  - by intros ?%elem_of_nil.
  - intros [->|Hrow]%elem_of_cons.
    + eexists. split; [left|]. done.
    + destruct (IH _ Hrow) as (s & ? & ? & ?). exists s.
      split; [by right|done].
Qed.

(** The statements the persister executes. *)
Lemma persister_executed runs w rs w' :
  _insert_scheduled_flow_runs runs w = (inr rs, w') →
  ∃ ids,
    executed w' = executed w ++ persister_trace runs rs ids (uuid_source w).
Proof.
  unfold _insert_scheduled_flow_runs. destruct runs as [|r0 runs0].
  { intros H. pair_inv H. exists []. cbn. by rewrite app_nil_r. }
  set (runs := r0 :: runs0).
  intros (u & w1 & H1 & H)%bind_ok_inv.
  unfold execute_insert_flow_runs in H1.
  destruct (insert_on_conflict_do_nothing _ _) as [t1|] eqn:E; [|done].
  pair_inv H1.
  apply bind_ok_inv in H as (ids & w2 & H2 & H).
  unfold execute_inserted_rows in H2. pair_inv H2.
  apply bind_ok_inv in H as (states & w3 & H3 & H).
  rewrite for_each_state_rows in H3. pair_inv H3.
  apply bind_ok_inv in H as (u' & w4 & H4 & H).
  unfold ret in H. pair_inv H. world_simpl H4.
  change (fr_id r0 :: list_fmap _ _ fr_id runs0) with (fr_id <$> runs) in *.
  set (ids := inserted_rows _ _ _) in *.
  set (rs := filter _ runs) in *.
  exists ids. unfold persister_trace. cbn [runs].
  destruct (state_rows_from (uuid_source w) rs) as [|s0 states] eqn:ES.
  - unfold ret in H4. pair_inv H4. world_simpl.
    apply state_rows_from_nil in ES. rewrite ES.
    by rewrite <- app_assoc.
  - apply bind_ok_inv in H4 as (u'' & w5 & H5 & H6).
    unfold execute_insert_flow_run_states in H5. world_simpl H5.
    destruct (insert_flow_run_state_rows _ _) as [t2|] eqn:E2; [|done].
    pair_inv H5.
    unfold execute_set_state_id in H6. pair_inv H6. world_simpl.
    destruct rs as [|r rs']; [done|].
    by rewrite <- !app_assoc.
Qed.

Lemma accepted_all keys rows :
  NoDup (flow_run_unique_upsert_columns <$> rows) →
  (∀ r, r ∈ rows → flow_run_unique_upsert_columns r ∉ keys) →
  accepted keys rows = rows.
Proof.
  revert keys. induction rows as [|r rows IH]; intros keys; [done|].
  rewrite fmap_cons. intros [Hr Hnd]%NoDup_cons Hnew. cbn.
  rewrite decide_False by (apply Hnew; left).
  f_equal. apply IH; [done|].
  intros r' Hr' [Hin|Heq%list_elem_of_singleton]%elem_of_app.
  - by apply (Hnew r'); [right|].
  - apply Hr. rewrite <- Heq. by apply list_elem_of_fmap_2.
Qed.

Lemma pretty_N_char_no_space x : pretty_N_char x ≠ " "%char.
Proof. unfold pretty_N_char. by repeat case_match. Qed.

Lemma pretty_N_go_no_space x s :
  no_space s = true → no_space (pretty_N_go x s) = true.
Proof.
  revert s. induction (N.lt_wf_0 x) as [x _ IH]; intros s Hs.
  destruct (decide (x = 0)%N) as [->|Hx]; [by rewrite pretty_N_go_0|].
  rewrite pretty_N_go_step by lia. apply IH.
  - apply N.div_lt; lia.
  - cbn. rewrite Hs, bool_decide_true; [done|apply pretty_N_char_no_space].
Qed.

Lemma pretty_nat_no_space (n : nat) : no_space (pretty n) = true.
Proof.
  unfold pretty, pretty_nat, pretty, pretty_N.
  destruct (decide _); [done|]. by apply pretty_N_go_no_space.
Qed.

Lemma app_space_inj (a a' b b' : string) :
  no_space a = true → no_space a' = true →
  a +:+ " " +:+ b = a' +:+ " " +:+ b' → a = a' ∧ b = b'.
Proof.
  revert a'. induction a as [|c a IH]; intros [|c' a'] Ha Ha' H.
  - change (String " "%char b = String " "%char b') in H.
    by injection H as ->.
  - change (String " "%char b = String c' (a' +:+ " " +:+ b')) in H.
    injection H as <- _. cbn in Ha'.
    by apply andb_true_iff in Ha' as [Hc%bool_decide_eq_true _].
  - change (String c (a +:+ " " +:+ b) = String " "%char b') in H.
    injection H as -> _. cbn in Ha.
    by apply andb_true_iff in Ha as [Hc%bool_decide_eq_true _].
  - change (String c (a +:+ " " +:+ b) = String c' (a' +:+ " " +:+ b')) in H.
    injection H as -> Heq. cbn in Ha, Ha'.
    apply andb_true_iff in Ha as [_ Ha]. apply andb_true_iff in Ha' as [_ Ha'].
    destruct (IH a' Ha Ha' Heq) as [-> ->]. done.
Qed.

Lemma candidates_from_dates d deployment_id f i dates :
  fr_next_scheduled_start_time <$> candidates_from d deployment_id f i dates
  = dates.
Proof.
  revert i. induction dates as [|date dates IH]; intros i; [done|].
  cbn. by rewrite IH.
Qed.

Lemma candidates_from_fields d deployment_id f i dates r :
  r ∈ candidates_from d deployment_id f i dates →
  scheduled_fields deployment_id r.
Proof. by intros (date & _ & -> & _)%elem_of_candidates_from. Qed.

Lemma scheduled_key_inj_date (i : UUID) : Inj (=) (=) (scheduled_key i).
Proof.
  intros date1 date2 H. unfold scheduled_key in H.
  do 3 apply String.app_inj in H. by apply pretty_Z_inj in H.
Qed.

(** With fresh identifiers, what a returning [schedule_runs] leaves. *)
Lemma schedule_runs_appends
    settings deployment_id start_time end_time max_runs w rs w' :
  fresh_ids w →
  schedule_runs settings deployment_id start_time end_time max_runs w
  = (inr rs, w') →
  ∃ runs,
    rs = accepted (row_key <$> flow_run_table w) runs ∧
    fresh_ids (advance_uuid (length runs) (log (SessionGet deployment_id) w)) ∧
    fresh_candidates
      (advance_uuid (length runs) (log (SessionGet deployment_id) w)) runs ∧
    flow_run_table w'
    = flow_run_table w ++ linked_rows (uuid_source w + length runs) rs ∧
    flow_run_state_table w'
    = flow_run_state_table w
        ++ state_rows_from (uuid_source w + length runs) rs ∧
    deployment_table w' = deployment_table w.
Proof.
  intros Hw (runs & _ & Hwg & Hruns & Hins & Hrs)%schedule_runs_fresh_inv;
    [|done].
  destruct (persister_appends _ _ _ _ Hwg Hruns Hins) as [Htab Hst].
  destruct (persister_tables _ _ _ _ Hins) as (_ & _ & _ & Hdep).
  exists runs. split; [done|]. split; [done|]. split; [done|]. done.
Qed.

Lemma schedule_runs_keys
    settings deployment_id start_time end_time max_runs w rs w' :
  fresh_ids w →
  schedule_runs settings deployment_id start_time end_time max_runs w
  = (inr rs, w') →
  row_key <$> flow_run_table w'
  = (row_key <$> flow_run_table w) ++ (fr_idempotency_key <$> rs) ∧
  NoDup (fr_idempotency_key <$> rs) ∧
  (∀ r, r ∈ rs → fr_idempotency_key r ∉ row_key <$> flow_run_table w).
Proof.
  intros Hw (runs & -> & _ & _ & Htab & _)%schedule_runs_appends; [|done].
  split; [|split].
  - rewrite Htab, fmap_app, (row_key_fmap (linked_rows _ _)),
      linked_rows_runs. done.
  - apply accepted_keys_NoDup.
  - intros r Hr. by apply accepted_not_taken in Hr.
Qed.

(** ** The properties *)

(** X1. With fresh identifiers, a [schedule_runs] that returns only appends:
    the stored flow_run rows and state rows are kept as they are, in place;
    one flow_run row and one state row are added per returned run, in the
    order returned, each row pointing to its state row; the deployment table
    is not written. *)
Theorem schedule_runs_only_appends
    settings deployment_id start_time end_time max_runs w rs w' :
  fresh_ids w →
  schedule_runs settings deployment_id start_time end_time max_runs w
  = (inr rs, w') →
  ∃ i, (uuid_source w ≤ i)%nat ∧
       flow_run_table w' = flow_run_table w ++ linked_rows i rs ∧
       flow_run_state_table w'
       = flow_run_state_table w ++ state_rows_from i rs ∧
       deployment_table w' = deployment_table w.
Proof.
  intros Hw (runs & _ & _ & _ & ? & ? & ?)%schedule_runs_appends; [|done].
  exists (uuid_source w + length runs)%nat. split; [lia|done].
Qed.

Lemma schedule_runs_only_appends_witness :
  ∃ i, (uuid_source world0 ≤ i)%nat ∧
       flow_run_table world1 = flow_run_table world0 ++ linked_rows i runs1 ∧
       flow_run_state_table world1
       = flow_run_state_table world0 ++ state_rows_from i runs1 ∧
       deployment_table world1 = deployment_table world0.
Proof.
  apply (schedule_runs_only_appends
           settings0 7%nat (Some 0) (Some 10800) (Some 10)).
  - apply fresh_idsb_sound. reflexivity.
  - apply (returned_eq first_call). vm_compute. reflexivity.
Defined.

(** X2. With fresh identifiers, [schedule_runs] keeps the constraints of the
    tables: if before the call primary keys and idempotency keys are unique,
    every state row belongs to a stored run and every stored run points to a
    state row of its own, then the same holds after it returns. *)
Theorem schedule_runs_keeps_integrity
    settings deployment_id start_time end_time max_runs w rs w' :
  fresh_ids w →
  integrity w →
  schedule_runs settings deployment_id start_time end_time max_runs w
  = (inr rs, w') →
  integrity w'.
Proof.
  intros Hw (Hids & Hkeys & Hsids & Hfk & Hlink) Hrun.
  destruct (schedule_runs_keys _ _ _ _ _ _ _ _ Hw Hrun) as (Hk & _ & _).
  pose proof Hrun
    as (runs & Hrs & Hwg & Hruns & Htab & Hst & _)%schedule_runs_appends;
    [|done].
  set (i := (uuid_source w + length runs)%nat) in *.
  assert (∀ r, r ∈ rs → r ∈ runs) as Hsub
    by (intros r; rewrite Hrs; apply accepted_elem_of).
  destruct Hruns as [Hnd Hfresh].
  unfold integrity. rewrite Htab, Hst, !fmap_app.
  rewrite linked_rows_ids, state_rows_from_ids.
  split; [|split; [|split; [|split]]].
  - apply NoDup_app. split; [done|]. split.
    + intros j Hj (r & -> & Hr)%list_elem_of_fmap.
      destruct (Hfresh r (Hsub r Hr)) as (_ & Hno & _). by apply Hno.
    + apply (sublist_NoDup _ (fr_id <$> runs)); [done|].
      apply fmap_sublist. rewrite Hrs. apply accepted_sublist.
  - rewrite <- fmap_app, <- Htab, Hk, Hrs. by apply accepted_NoDup.
  - apply NoDup_app. split; [done|]. split; [|apply NoDup_seq].
    intros j (s & -> & Hs)%list_elem_of_fmap [Hlo _]%elem_of_seq.
    destruct Hwg as [_ Hstates]. apply Hstates in Hs as [Hs _].
    revert Hs. world_simpl. fold i. lia.
  - intros s [Hs|Hs]%elem_of_app; apply elem_of_app.
    + left. by apply Hfk.
    + right. apply elem_of_state_rows_from in Hs as (r & Hr & -> & _).
      by apply list_elem_of_fmap_2.
  - intros row [Hrow|Hrow]%elem_of_app.
    + destruct (Hlink row Hrow) as (s & ? & ? & ?). exists s.
      split; [apply elem_of_app; by left|done].
    + destruct (linked_rows_state _ _ _ Hrow) as (s & ? & ? & ?). exists s.
      split; [apply elem_of_app; by right|done].
Qed.

Lemma schedule_runs_keeps_integrity_witness : integrity world1.
Proof.
  apply (schedule_runs_keeps_integrity
           settings0 7%nat (Some 0) (Some 10800) (Some 10) world0 runs1).
  - apply fresh_idsb_sound. reflexivity.
  - unfold integrity. cbn.
    repeat split; try constructor; by intros ? ?%elem_of_nil.
  - apply (returned_eq first_call). vm_compute. reflexivity.
Defined.

(** X3. No date is lost: after [schedule_runs] returns for a deployment with
    an active schedule, every timestamp the enumerator yielded for the
    effective window and [max_runs] has a flow_run row carrying its
    idempotency key, inserted by this call or stored before. *)
Theorem every_enumerated_date_is_stored
    settings deployment_id start_time end_time max_runs w d sch rs w' :
  lookup_deployment w deployment_id = Some d →
  dep_schedule d = Some sch →
  dep_is_schedule_active d = true →
  schedule_runs settings deployment_id start_time end_time max_runs w
  = (inr rs, w') →
  Forall (λ date, scheduled_key (dep_id d) date
                  ∈ row_key <$> flow_run_table w')
         (get_dates sch
            (default (scheduler_max_runs settings) max_runs)
            (default (clock w) start_time)
            (default (default (clock w) start_time
                      + scheduler_max_scheduled_time settings) end_time)).
Proof.
  intros Hl Hs Ha (runs & Hgen & Hins)%schedule_runs_inv.
  destruct (persister_tables _ _ _ _ Hins) as (Htab & _).
  rewrite (row_key_fmap (flow_run_table w')), Htab, fmap_app,
    <- row_key_fmap.
  destruct (dep_flow_id d) as [f|] eqn:Hf.
  - rewrite (generate_active _ _ _ _ _ d sch f) in Hgen by done.
    injection Hgen as <- _.
    apply Forall_forall. intros date Hdate. apply accepted_covers_key.
    unfold flow_run_unique_upsert_columns. rewrite candidates_from_keys.
    by apply list_elem_of_fmap_2.
  - destruct (get_dates sch _ _ _) as [|date rest] eqn:Hd; [constructor|].
    rewrite (generate_invalid _ _ _ _ _ d sch) in Hgen; try done.
    by rewrite Hd.
Qed.

Lemma every_enumerated_date_is_stored_witness :
  Forall (λ date, scheduled_key (dep_id deployment_D) date
                  ∈ row_key <$> flow_run_table world1)
         (get_dates hourly3
            (default (scheduler_max_runs settings0) (Some 10))
            (default (clock world0) (Some 0))
            (default (default (clock world0) (Some 0)
                      + scheduler_max_scheduled_time settings0)
                     (Some 10800))).
Proof.
  apply (every_enumerated_date_is_stored
           settings0 7%nat (Some 0) (Some 10800) (Some 10) world0
           deployment_D hourly3 runs1 world1).
  - reflexivity.
  - reflexivity.
  - reflexivity.
  - apply (returned_eq first_call). vm_compute. reflexivity.
Defined.

(** X4. The runs [schedule_runs] returns follow the enumerator: their
    scheduled times are, in the same order, some of the timestamps the
    deployment's schedule yielded for the effective window and [max_runs];
    each run carries the given deployment id, is marked auto-scheduled, has
    state type SCHEDULED, and its state payload is a SCHEDULED state with
    the message "Flow run scheduled" at the run's own scheduled time. *)
Theorem returned_runs_follow_enumerator
    settings deployment_id start_time end_time max_runs w d sch rs w' :
  lookup_deployment w deployment_id = Some d →
  dep_schedule d = Some sch →
  schedule_runs settings deployment_id start_time end_time max_runs w
  = (inr rs, w') →
  fr_next_scheduled_start_time <$> rs
    `sublist_of`
    get_dates sch
      (default (scheduler_max_runs settings) max_runs)
      (default (clock w) start_time)
      (default (default (clock w) start_time
                + scheduler_max_scheduled_time settings) end_time) ∧
  Forall (scheduled_fields deployment_id) rs.
Proof.
  intros Hl Hs (runs & Hgen & Hins)%schedule_runs_inv.
  pose proof (persister_returns_sublist _ _ _ _ Hins) as Hsub.
  apply generate_inv in Hgen
    as [_ [->|(d' & sch' & f & Hl' & Hs' & _ & _ & ->)]].
  - apply sublist_nil_r in Hsub as ->. split; [apply sublist_nil_l|constructor].
  - rewrite Hl in Hl'. injection Hl' as <-.
    rewrite Hs in Hs'. injection Hs' as <-. split.
    + rewrite <- (candidates_from_dates d deployment_id f (uuid_source w)).
      by apply fmap_sublist.
    + apply Forall_forall. intros r Hr.
      eapply candidates_from_fields, elem_of_sublist; done.
Qed.

Lemma returned_runs_follow_enumerator_witness :
  fr_next_scheduled_start_time <$> runs1
    `sublist_of`
    get_dates hourly3
      (default (scheduler_max_runs settings0) (Some 10))
      (default (clock world0) (Some 0))
      (default (default (clock world0) (Some 0)
                + scheduler_max_scheduled_time settings0) (Some 10800)) ∧
  Forall (scheduled_fields 7) runs1.
Proof.
  apply (returned_runs_follow_enumerator
           settings0 7%nat (Some 0) (Some 10800) (Some 10) world0
           deployment_D hourly3 runs1 world1).
  - reflexivity.
  - reflexivity.
  - apply (returned_eq first_call). vm_compute. reflexivity.
Defined.

(** X5. The statements of a returning [schedule_runs], in order: the
    [session.get]; then, only if a candidate was generated, the
    conflict-ignoring insert and the probe; then, only if the result is not
    empty, the insert of the state rows of the returned runs and the pointer
    update. Nothing else is executed: in particular no state insert with an
    empty batch. *)
Theorem schedule_runs_statements
    settings deployment_id start_time end_time max_runs w rs w' :
  schedule_runs settings deployment_id start_time end_time max_runs w
  = (inr rs, w') →
  ∃ runs ids,
    _generate_scheduled_flow_runs deployment_id
      (default (clock w) start_time)
      (default (default (clock w) start_time
                + scheduler_max_scheduled_time settings) end_time)
      (default (scheduler_max_runs settings) max_runs) w
    = (inr runs,
       advance_uuid (length runs) (log (SessionGet deployment_id) w)) ∧
    rs `sublist_of` runs ∧
    executed w'
    = executed w
        ++ SessionGet deployment_id
        :: persister_trace runs rs ids (uuid_source w + length runs).
Proof.
  intros (runs & Hgen & Hins)%schedule_runs_inv.
  destruct (persister_executed _ _ _ _ Hins) as (ids & Hex).
  exists runs, ids. split; [done|].
  split; [by eapply persister_returns_sublist|].
  rewrite Hex. world_simpl. by rewrite <- app_assoc.
Qed.

Lemma schedule_runs_statements_witness :
  ∃ runs ids,
    _generate_scheduled_flow_runs 7
      (default (clock world0) (Some 0))
      (default (default (clock world0) (Some 0)
                + scheduler_max_scheduled_time settings0) (Some 10800))
      (default (scheduler_max_runs settings0) (Some 10)) world0
    = (inr runs,
       advance_uuid (length runs) (log (SessionGet 7) world0)) ∧
    runs1 `sublist_of` runs ∧
    executed world1
    = executed world0
        ++ SessionGet 7
        :: persister_trace runs runs1 ids (uuid_source world0 + length runs).
Proof.
  apply (schedule_runs_statements
           settings0 7%nat (Some 0) (Some 10800) (Some 10)).
  apply (returned_eq first_call). vm_compute. reflexivity.
Defined.

(** X6. Two calls of [schedule_runs] in sequence, with any arguments (the
    same deployment or another, overlapping windows or not), never return
    two runs with the same idempotency key, and the keys stored after both
    are the keys stored before followed by those of the runs returned. *)
Theorem sequential_calls_share_no_key
    settings deployment_id1 start_time1 end_time1 max_runs1
    deployment_id2 start_time2 end_time2 max_runs2 c w rs1 w1 rs2 w2 :
  fresh_ids w →
  schedule_runs settings deployment_id1 start_time1 end_time1 max_runs1 w
  = (inr rs1, w1) →
  schedule_runs settings deployment_id2 start_time2 end_time2 max_runs2
    (set_clock c w1)
  = (inr rs2, w2) →
  NoDup (fr_idempotency_key <$> rs1 ++ rs2) ∧
  row_key <$> flow_run_table w2
  = (row_key <$> flow_run_table w) ++ (fr_idempotency_key <$> rs1 ++ rs2).
Proof.
  intros Hw H1 H2.
  destruct (schedule_runs_keys _ _ _ _ _ _ _ _ Hw H1) as (Hk1 & Hnd1 & _).
  assert (fresh_ids (set_clock c w1)) as Hw1.
  { change (fresh_ids w1).
    eapply schedule_runs_keeps_fresh_ids; [exact Hw|exact H1]. }
  destruct (schedule_runs_keys _ _ _ _ _ _ _ _ Hw1 H2) as (Hk2 & Hnd2 & Hnew).
  revert Hk2 Hnew. world_simpl. rewrite Hk1. intros Hk2 Hnew. split.
  - rewrite fmap_app. apply NoDup_app. split; [done|]. split; [|done].
    intros k Hk (r & -> & Hr)%list_elem_of_fmap.
    apply (Hnew r Hr), elem_of_app. by right.
  - by rewrite Hk2, fmap_app, app_assoc.
Qed.

Lemma sequential_calls_share_no_key_witness :
  NoDup (fr_idempotency_key <$> returned call_E1 ++ returned call_E2) ∧
  row_key <$> flow_run_table (world_after call_E2)
  = (row_key <$> flow_run_table world_E)
      ++ (fr_idempotency_key <$> returned call_E1 ++ returned call_E2).
Proof.
  apply (sequential_calls_share_no_key
           settings0 11%nat (Some 0) (Some 7201) None
           11%nat (Some 3600) None (Some 10) 60 world_E
           (returned call_E1) (world_after call_E1)
           (returned call_E2) (world_after call_E2)).
  - apply fresh_idsb_sound. reflexivity.
  - apply (returned_eq call_E1). vm_compute. reflexivity.
  - apply (returned_eq call_E2). vm_compute. reflexivity.
Defined.

Example overlapping_calls_return_each_date_once :
  fr_idempotency_key <$> returned call_E1
  = ["scheduled 11 0"; "scheduled 11 3600"; "scheduled 11 7200"] ∧
  fr_idempotency_key <$> returned call_E2
  = ["scheduled 11 10800"; "scheduled 11 14400"].
Proof. split; vm_compute; reflexivity. Qed.

(** X7. On a deployment with an active schedule none of whose enumerated
    timestamps is stored yet, [schedule_runs] returns one run per timestamp
    the enumerator yields, in the enumerator's order, provided the
    enumerator yields no timestamp twice and identifiers are fresh. *)
Theorem first_scheduling_returns_every_date
    settings deployment_id start_time end_time max_runs w d sch f :
  fresh_ids w →
  lookup_deployment w deployment_id = Some d →
  dep_schedule d = Some sch →
  dep_is_schedule_active d = true →
  dep_flow_id d = Some f →
  NoDup (get_dates sch
           (default (scheduler_max_runs settings) max_runs)
           (default (clock w) start_time)
           (default (default (clock w) start_time
                     + scheduler_max_scheduled_time settings) end_time)) →
  Forall (λ date, scheduled_key (dep_id d) date
                  ∉ row_key <$> flow_run_table w)
         (get_dates sch
            (default (scheduler_max_runs settings) max_runs)
            (default (clock w) start_time)
            (default (default (clock w) start_time
                      + scheduler_max_scheduled_time settings) end_time)) →
  ∃ rs w',
    schedule_runs settings deployment_id start_time end_time max_runs w
    = (inr rs, w') ∧
    fr_next_scheduled_start_time <$> rs
    = get_dates sch
        (default (scheduler_max_runs settings) max_runs)
        (default (clock w) start_time)
        (default (default (clock w) start_time
                  + scheduler_max_scheduled_time settings) end_time).
Proof.
  intros Hw Hl Hs Ha Hf Hnd Hnew.
  set (n := default (scheduler_max_runs settings) max_runs) in *.
  set (s := default (clock w) start_time) in *.
  set (e := default (s + scheduler_max_scheduled_time settings) end_time)
    in *.
  set (dates := get_dates sch n s e) in *.
  pose proof (generate_active deployment_id s e n w d sch f Hl Hs Ha Hf)
    as Hgen.
  fold dates in Hgen.
  destruct (generate_fresh _ _ _ _ _ _ _ Hw Hgen) as [Hwg Hruns].
  destruct (persister_total_fresh _ _ Hwg Hruns) as (w' & Hins).
  revert Hins. world_simpl. rewrite accepted_all.
  - intros Hins. eexists _, w'. split.
    + rewrite schedule_runs_unfold. erewrite bind_ok by exact Hgen.
      exact Hins.
    + apply candidates_from_dates.
  - unfold flow_run_unique_upsert_columns. rewrite candidates_from_keys.
    apply (NoDup_fmap_2 _). exact Hnd.
  - intros r (date & Hdate & -> & _)%elem_of_candidates_from.
    rewrite Forall_forall in Hnew. by apply Hnew.
Qed.

Lemma first_scheduling_returns_every_date_witness :
  ∃ rs w',
    schedule_runs settings0 11 (Some 0) (Some 7201) None world_E
    = (inr rs, w') ∧
    fr_next_scheduled_start_time <$> rs
    = get_dates (dates_schedule [0; 3600; 7200; 10800; 14400])
        (default (scheduler_max_runs settings0) None)
        (default (clock world_E) (Some 0))
        (default (default (clock world_E) (Some 0)
                  + scheduler_max_scheduled_time settings0) (Some 7201)).
Proof.
  apply (first_scheduling_returns_every_date
           settings0 11%nat (Some 0) (Some 7201) None world_E deployment_E
           (dates_schedule [0; 3600; 7200; 10800; 14400]) 3%nat).
  - apply fresh_idsb_sound. reflexivity.
  - reflexivity.
  - reflexivity.
  - reflexivity.
  - reflexivity.
  - apply (bool_decide_unpack _). vm_compute. exact I.
  - apply (bool_decide_unpack _). vm_compute. exact I.
Defined.

(** X8. The idempotency key determines the deployment id and the scheduled
    timestamp: two keys are equal exactly when both the ids and the
    timestamps are, so a timestamp not yet scheduled for a deployment is
    never taken for one that is. *)
Theorem scheduled_key_injective (i i' : UUID) (date date' : DateTime) :
  scheduled_key i date = scheduled_key i' date' ↔ i = i' ∧ date = date'.
Proof.
  split; [|by intros [-> ->]].
  unfold scheduled_key. intros H. apply String.app_inj in H.
  apply app_space_inj in H as [Hi Hd]; try apply pretty_nat_no_space.
  split; [by apply pretty_nat_inj|by apply pretty_Z_inj].
Qed.

(** * The deployment repository *)

(** ** Helper lemmas *)

Lemma by_flow_and_name_spec : upsert_on_flow_and_name by_flow_and_name.
Proof.
  intros a b. unfold by_flow_and_name. split; [by intros [= -> ->]|].
  by intros [-> ->].
Qed.

Lemma head_filter_None {A} (P : A → Prop) `{!∀ x, Decision (P x)} l :
  head (filter P l) = None ↔ ∀ x, x ∈ l → ¬ P x.
Proof.
  split.
  - intros Hnone x Hx HP.
    destruct (head_filter_Some P l x Hx HP) as (y & Hy & _). congruence.
  - intros Hall. destruct (filter P l) as [|y k] eqn:E; [done|].
    assert (y ∈ filter P l) as [HP Hy]%list_elem_of_filter
      by (rewrite E; left).
    by destruct (Hall y Hy).
Qed.

Lemma head_filter_app_first {A} (P : A → Prop) `{!∀ x, Decision (P x)}
    pre x post :
  (∀ y, y ∈ pre → ¬ P y) → P x →
  head (filter P (pre ++ x :: post)) = Some x.
Proof.
  intros Hpre Hx. rewrite filter_app, filter_cons_True by done.
  assert (filter P pre = []) as ->; [|done].
  destruct (filter P pre) as [|y k] eqn:E; [done|].
  assert (y ∈ filter P pre) as [HP Hy]%list_elem_of_filter
    by (rewrite E; left).
  by destruct (Hpre y Hy).
Qed.

Lemma first_with_key {A K} `{EqDecision K} (f : A → K) (k : K) l :
  k ∈ f <$> l →
  ∃ pre x post, l = pre ++ x :: post ∧ f x = k ∧ ∀ y, y ∈ pre → f y ≠ k.
Proof.
  induction l as [|a l IH]; [by intros ?%elem_of_nil|].
  rewrite fmap_cons. intros Hin.
  destruct (decide (f a = k)) as [Ha|Ha].
  - exists [], a, l. split; [done|]. split; [done|].
    by intros y ?%elem_of_nil.
  - apply elem_of_cons in Hin as [Heq|Hin]; [congruence|].
    destruct (IH Hin) as (pre & x & post & -> & Hx & Hpre).
    exists (a :: pre), x, post. split; [done|]. split; [done|].
    intros y [->|Hy]%elem_of_cons; auto.
Qed.

Section upsert.
Context {K : Type} `{EqDecision K}.
Variable cols : DeploymentModel → K.
Hypothesis Hcols : upsert_on_flow_and_name cols.

Lemma cols_set_updated now d : cols (set_updated now d) = cols d.
Proof. by apply Hcols. Qed.

Lemma cols_on_conflict_set d old : cols (on_conflict_set d old) = cols old.
Proof. by apply Hcols. Qed.

Lemma update_conflicting_first d pre old post :
  (∀ y, y ∈ pre → cols y ≠ cols d) → cols old = cols d →
  update_conflicting cols d (pre ++ old :: post)
  = pre ++ on_conflict_set d old :: post.
Proof.
  intros Hpre Hold. induction pre as [|a pre IH]; cbn.
  - by rewrite decide_True.
  - rewrite decide_False by (apply Hpre; left).
    f_equal. apply IH. intros y ?. apply Hpre. by right.
Qed.

(** The two ways [create_deployment] goes through, and the one it does
    not. *)
Lemma create_deployment_cases d db :
  let d' := set_updated (db_clock db) d in
  (∃ pre old post,
     db_deployment db = pre ++ old :: post ∧
     cols old = cols d ∧ (∀ y, y ∈ pre → cols y ≠ cols d) ∧
     create_deployment cols d db
     = (inr (Some (on_conflict_set d' old)),
        set_db_deployment (pre ++ on_conflict_set d' old :: post) db)) ∨
  ((cols d ∉ cols <$> db_deployment db) ∧
   (dm_id d ∉ dm_id <$> db_deployment db) ∧
   create_deployment cols d db
   = (inr (Some d'), set_db_deployment (db_deployment db ++ [d']) db)) ∨
  ((cols d ∉ cols <$> db_deployment db) ∧
   (dm_id d ∈ dm_id <$> db_deployment db) ∧
   create_deployment cols d db = (inl IntegrityError, db)).
Proof.
  intros d'. unfold create_deployment, on_conflict_do_update. fold d'.
  assert (cols d' = cols d) as Hd' by apply cols_set_updated.
  rewrite Hd'.
  destruct (decide (cols d ∈ cols <$> db_deployment db)) as [Hin|Hin].
  - left. destruct (first_with_key cols (cols d) _ Hin)
      as (pre & old & post & Htab & Hold & Hpre).
    exists pre, old, post. split; [done|]. split; [done|]. split; [done|].
    rewrite Htab, update_conflicting_first by (rewrite ?Hd'; done).
    rewrite head_filter_app_first; [done| |].
    + intros y Hy Hy'. apply (Hpre y Hy). rewrite <- Hd'. by apply Hcols.
    + apply Hcols. by rewrite cols_on_conflict_set, Hd'.
  - right. change (dm_id d') with (dm_id d).
    destruct (decide (dm_id d ∈ dm_id <$> db_deployment db)) as [Hid|Hid].
    + right. done.
    + left. split; [done|]. split; [done|].
      rewrite head_filter_app_first; [done| |done].
      intros y Hy Hy'. apply Hin. rewrite <- Hd'.
      apply Hcols in Hy'. rewrite <- Hy'. by apply list_elem_of_fmap_2.
Qed.

Lemma create_deployment_conflict d db pre old post :
  db_deployment db = pre ++ old :: post →
  cols old = cols d →
  (∀ y, y ∈ pre → cols y ≠ cols d) →
  create_deployment cols d db
  = (inr (Some (on_conflict_set (set_updated (db_clock db) d) old)),
     set_db_deployment
       (pre ++ on_conflict_set (set_updated (db_clock db) d) old :: post)
       db).
Proof.
  intros Htab Hold Hpre. unfold create_deployment, on_conflict_do_update.
  assert (cols (set_updated (db_clock db) d) = cols d) as Hd'
    by apply cols_set_updated.
  rewrite decide_True
    by (rewrite Hd', Htab, <- Hold, fmap_app, fmap_cons, elem_of_app;
        right; left).
  rewrite Htab, update_conflicting_first by (rewrite ?Hd'; done).
  rewrite head_filter_app_first; [done| |].
  - intros y Hy Hy'. apply (Hpre y Hy). apply Hcols. exact Hy'.
  - apply Hcols. by rewrite cols_on_conflict_set, Hd'.
Qed.
End upsert.

Lemma head_filter_unique {A B} `{EqDecision B} (f : A → B) (l : list A) x :
  NoDup (f <$> l) → x ∈ l → head (filter (λ y, f y = f x) l) = Some x.
Proof.
  intros Hnd Hx.
  destruct (head_filter_Some (λ y, f y = f x) l x Hx eq_refl)
    as (y & Hhead & Hy & Heq).
  rewrite Hhead. f_equal. by apply (NoDup_fmap_eq f l).
Qed.

(** ** Creating *)

(** X9. [create_deployment] of a deployment whose flow and name no stored
    deployment has, and whose id is free, appends it with [updated] set to
    the current time, leaves the stored rows as they are and returns the new
    row. *)
Theorem create_deployment_inserts {K} `{EqDecision K}
    (cols : DeploymentModel → K) d db :
  upsert_on_flow_and_name cols →
  Forall (λ old, ¬ (dm_flow_id old = dm_flow_id d ∧ dm_name old = dm_name d))
         (db_deployment db) →
  dm_id d ∉ dm_id <$> db_deployment db →
  create_deployment cols d db
  = (inr (Some (set_updated (db_clock db) d)),
     set_db_deployment (db_deployment db ++ [set_updated (db_clock db) d])
       db).
Proof.
  intros Hcols Hnew Hid. rewrite Forall_forall in Hnew.
  destruct (create_deployment_cases cols Hcols d db)
    as [(pre & old & post & Htab & Hold & _)|[(_ & _ & ?)|(_ & ? & _)]];
    [|done|done].
  destruct (Hnew old).
  - rewrite Htab, elem_of_app. right. left.
  - by apply Hcols.
Qed.

Lemma create_deployment_inserts_witness :
  create_deployment by_flow_and_name model_report db0
  = (inr (Some (set_updated 50 model_report)),
     set_db_deployment
       [model_nightly; model_adhoc; model_train; set_updated 50 model_report]
       db0).
Proof.
  apply (create_deployment_inserts by_flow_and_name model_report db0).
  - apply by_flow_and_name_spec.
  - repeat constructor; cbn; intros [? ?]; discriminate.
  - apply (bool_decide_unpack _). vm_compute. exact I.
Defined.

(** X10. [create_deployment] of a deployment whose flow and name a stored
    deployment has updates that row in place and returns it: the row keeps
    its id, created, name and flow_id and takes the model's schedule,
    is_schedule_active, tags, parameters and flow_data, with [updated] set
    to the current time. The id and created of the model are ignored, no
    row is added and no other row changes. *)
Theorem create_deployment_updates {K} `{EqDecision K}
    (cols : DeploymentModel → K) d db pre old post :
  upsert_on_flow_and_name cols →
  db_deployment db = pre ++ old :: post →
  dm_flow_id old = dm_flow_id d →
  dm_name old = dm_name d →
  Forall (λ y, ¬ (dm_flow_id y = dm_flow_id d ∧ dm_name y = dm_name d)) pre →
  create_deployment cols d db
  = (inr (Some (on_conflict_set (set_updated (db_clock db) d) old)),
     set_db_deployment
       (pre ++ on_conflict_set (set_updated (db_clock db) d) old :: post) db).
Proof.
  intros Hcols Htab Hflow Hname Hpre. rewrite Forall_forall in Hpre.
  apply (create_deployment_conflict cols Hcols); [done| |].
  - by apply Hcols.
  - intros y Hy Heq. apply (Hpre y Hy). by apply Hcols.
Qed.

Lemma create_deployment_updates_witness :
  create_deployment by_flow_and_name model_nightly_v2 db0
  = (inr (Some (on_conflict_set (set_updated 50 model_nightly_v2)
                  model_nightly)),
     set_db_deployment
       ([] ++ on_conflict_set (set_updated 50 model_nightly_v2) model_nightly
           :: [model_adhoc; model_train]) db0).
Proof.
  apply (create_deployment_updates by_flow_and_name model_nightly_v2 db0
           [] model_nightly [model_adhoc; model_train]).
  - apply by_flow_and_name_spec.
  - reflexivity.
  - reflexivity.
  - reflexivity.
  - constructor.
Defined.

(** X11. [create_deployment] is idempotent: repeated at the same current
    time on the database it left, it returns the same row and leaves the
    database as it is. *)
Theorem create_deployment_idempotent {K} `{EqDecision K}
    (cols : DeploymentModel → K) d db o db' :
  upsert_on_flow_and_name cols →
  create_deployment cols d db = (inr o, db') →
  create_deployment cols d db' = (inr o, db').
Proof.
  intros Hcols Hcreate.
  destruct (create_deployment_cases cols Hcols d db)
    as [(pre & old & post & Htab & Hold & Hpre & Heq)
       |[(Hnew & _ & Heq)|(_ & _ & Heq)]];
    rewrite Heq in Hcreate; pair_inv Hcreate.
  - set (d' := set_updated (db_clock db) d).
    rewrite (create_deployment_conflict cols Hcols d _ pre
               (on_conflict_set d' old) post); try done.
    by rewrite (cols_on_conflict_set cols Hcols).
  - set (d' := set_updated (db_clock db) d).
    rewrite (create_deployment_conflict cols Hcols d _ (db_deployment db)
               d' []); try done.
    + apply (cols_set_updated cols Hcols).
    + intros y Hy Hkey. apply Hnew. rewrite <- Hkey.
      by apply list_elem_of_fmap_2.
Qed.

Lemma create_deployment_idempotent_witness :
  create_deployment by_flow_and_name model_nightly_v2
    (create_deployment by_flow_and_name model_nightly_v2 db0).2
  = (inr (Some (on_conflict_set (set_updated 50 model_nightly_v2)
                  model_nightly)),
     (create_deployment by_flow_and_name model_nightly_v2 db0).2).
Proof.
  apply (create_deployment_idempotent by_flow_and_name model_nightly_v2 db0).
  - apply by_flow_and_name_spec.
  - reflexivity.
Defined.

Lemma create_deployment_keeps_ids {K} `{EqDecision K}
    (cols : DeploymentModel → K) d db o db' :
  upsert_on_flow_and_name cols →
  NoDup (dm_id <$> db_deployment db) →
  create_deployment cols d db = (inr o, db') →
  NoDup (dm_id <$> db_deployment db').
Proof.
  intros Hcols Hids Hcreate.
  destruct (create_deployment_cases cols Hcols d db)
    as [(pre & old & post & Htab & _ & _ & Heq)
       |[(_ & Hid & Heq)|(_ & _ & Heq)]];
    rewrite Heq in Hcreate; pair_inv Hcreate; cbn [db_deployment
      set_db_deployment].
  - rewrite Htab in Hids. by rewrite fmap_app, fmap_cons in *.
  - rewrite fmap_app. apply NoDup_app. split; [done|].
    split; [|apply NoDup_singleton].
    by intros j Hj ->%list_elem_of_singleton.
Qed.

(** X12. [create_deployment] keeps the unique constraints of the deployment
    table: if ids are unique and no two deployments share flow and name
    before, the same holds after it returns; it writes no other table. *)
Theorem create_deployment_keeps_uniqueness {K} `{EqDecision K}
    (cols : DeploymentModel → K) d db o db' :
  upsert_on_flow_and_name cols →
  NoDup (dm_id <$> db_deployment db) →
  NoDup (by_flow_and_name <$> db_deployment db) →
  create_deployment cols d db = (inr o, db') →
  NoDup (dm_id <$> db_deployment db') ∧
  NoDup (by_flow_and_name <$> db_deployment db') ∧
  db_flow db' = db_flow db ∧
  db_flow_run db' = db_flow_run db ∧
  db_task_run db' = db_task_run db.
Proof.
  intros Hcols Hids Hkeys Hcreate.
  split; [by eapply create_deployment_keeps_ids|].
  destruct (create_deployment_cases cols Hcols d db)
    as [(pre & old & post & Htab & _ & _ & Heq)
       |[(Hnew & _ & Heq)|(_ & _ & Heq)]];
    rewrite Heq in Hcreate; pair_inv Hcreate; cbn [db_deployment
      set_db_deployment db_flow db_flow_run db_task_run].
  - split; [|done]. rewrite Htab in Hkeys.
    by rewrite fmap_app, fmap_cons in *.
  - split; [|done]. rewrite fmap_app. apply NoDup_app. split; [done|].
    split; [|apply NoDup_singleton].
    intros k (y & Hk & Hy)%list_elem_of_fmap Hk'%list_elem_of_singleton.
    apply Hnew. rewrite Hk in Hk'. injection Hk' as Hflow Hname.
    assert (cols y = cols d) as <- by (by apply Hcols).
    by apply list_elem_of_fmap_2.
Qed.

Lemma create_deployment_keeps_uniqueness_witness :
  NoDup (dm_id <$> db_deployment
           (create_deployment by_flow_and_name model_report db0).2) ∧
  NoDup (by_flow_and_name <$> db_deployment
           (create_deployment by_flow_and_name model_report db0).2) ∧
  db_flow (create_deployment by_flow_and_name model_report db0).2
  = db_flow db0 ∧
  db_flow_run (create_deployment by_flow_and_name model_report db0).2
  = db_flow_run db0 ∧
  db_task_run (create_deployment by_flow_and_name model_report db0).2
  = db_task_run db0.
Proof.
  apply (create_deployment_keeps_uniqueness by_flow_and_name model_report db0
           (Some (set_updated 50 model_report))).
  - apply by_flow_and_name_spec.
  - apply (bool_decide_unpack _). vm_compute. exact I.
  - apply (bool_decide_unpack _). vm_compute. exact I.
  - reflexivity.
Defined.

(** X13. Round trip: when ids are unique, the row [create_deployment] returns
    is the one [read_deployment] finds under its id afterwards; it has the
    flow, the name, the schedule, is_schedule_active, the tags, the
    parameters and the flow_data of the model passed, and [updated] is the
    current time. *)
Theorem read_deployment_after_create {K} `{EqDecision K}
    (cols : DeploymentModel → K) d db o db' :
  upsert_on_flow_and_name cols →
  NoDup (dm_id <$> db_deployment db) →
  create_deployment cols d db = (inr o, db') →
  ∃ row,
    o = Some row ∧
    read_deployment (dm_id row) db' = Some row ∧
    dm_flow_id row = dm_flow_id d ∧
    dm_name row = dm_name d ∧
    dm_schedule row = dm_schedule d ∧
    dm_is_schedule_active row = dm_is_schedule_active d ∧
    dm_tags row = dm_tags d ∧
    dm_parameters row = dm_parameters d ∧
    dm_flow_data row = dm_flow_data d ∧
    dm_updated row = db_clock db.
Proof.
  intros Hcols Hids Hcreate.
  pose proof (create_deployment_keeps_ids cols d db o db' Hcols Hids Hcreate)
    as Hids'.
  destruct (create_deployment_cases cols Hcols d db)
    as [(pre & old & post & Htab & Hold & _ & Heq)
       |[(_ & _ & Heq)|(_ & _ & Heq)]];
    rewrite Heq in Hcreate; pair_inv Hcreate.
  - eexists. split; [done|]. split.
    + apply (head_filter_unique dm_id); [done|].
      cbn. rewrite elem_of_app. right. left.
    + apply Hcols in Hold as [? ?]. done.
  - eexists. split; [done|]. split; [|done].
    apply (head_filter_unique dm_id); [done|].
    cbn. rewrite elem_of_app. right. left.
Qed.

Lemma read_deployment_after_create_witness :
  ∃ row,
    Some (on_conflict_set (set_updated 50 model_nightly_v2) model_nightly)
    = Some row ∧
    read_deployment (dm_id row)
      (create_deployment by_flow_and_name model_nightly_v2 db0).2
    = Some row ∧
    dm_flow_id row = dm_flow_id model_nightly_v2 ∧
    dm_name row = dm_name model_nightly_v2 ∧
    dm_schedule row = dm_schedule model_nightly_v2 ∧
    dm_is_schedule_active row = dm_is_schedule_active model_nightly_v2 ∧
    dm_tags row = dm_tags model_nightly_v2 ∧
    dm_parameters row = dm_parameters model_nightly_v2 ∧
    dm_flow_data row = dm_flow_data model_nightly_v2 ∧
    dm_updated row = db_clock db0.
Proof.
  apply (read_deployment_after_create by_flow_and_name model_nightly_v2 db0).
  - apply by_flow_and_name_spec.
  - apply (bool_decide_unpack _). vm_compute. exact I.
  - reflexivity.
Defined.

(** ** Deleting *)

Lemma filter_id_after_delete (l : list DeploymentModel) (i j : UUID) :
  j ≠ i →
  filter (λ d, dm_id d = j) (filter (λ d, dm_id d ≠ i) l)
  = filter (λ d, dm_id d = j) l.
Proof.
  intros Hne. induction l as [|d l IH]; [done|].
  rewrite (filter_cons (λ d, dm_id d ≠ i)).
  destruct (decide (dm_id d ≠ i)) as [Hd|Hd].
  - rewrite !(filter_cons (λ d, dm_id d = j)), IH. done.
  - rewrite IH, filter_cons_False; [done|]. intros Heq.
    apply Hd. intros Hi. congruence.
Qed.

Lemma filter_id_deleted (l : list DeploymentModel) (i : UUID) :
  filter (λ d, dm_id d = i) (filter (λ d, dm_id d ≠ i) l) = [].
Proof.
  induction l as [|d l IH]; [done|].
  rewrite (filter_cons (λ d, dm_id d ≠ i)).
  destruct (decide (dm_id d ≠ i)) as [Hd|Hd]; [|done].
  by rewrite filter_cons_False.
Qed.

Lemma filter_delete_twice (l : list DeploymentModel) (i : UUID) :
  filter (λ d, dm_id d ≠ i) (filter (λ d, dm_id d ≠ i) l)
  = filter (λ d, dm_id d ≠ i) l.
Proof.
  induction l as [|d l IH]; [done|].
  rewrite (filter_cons _ d l).
  destruct (decide (dm_id d ≠ i)) as [Hd|Hd]; [|done].
  by rewrite filter_cons_True, IH.
Qed.

(** X14. [delete_deployment] removes the deployment of the given id and no
    other: afterwards [read_deployment] finds nothing under that id and
    finds under every other id what it found before; the result tells
    whether a deployment of that id was stored; a second delete of the same
    id reports false and changes nothing. *)
Theorem delete_deployment_removes (deployment_id : UUID) (db : Database) :
  read_deployment deployment_id (delete_deployment deployment_id db).2
  = None ∧
  (∀ other, other ≠ deployment_id →
            read_deployment other (delete_deployment deployment_id db).2
            = read_deployment other db) ∧
  ((delete_deployment deployment_id db).1 = true ↔
   is_Some (read_deployment deployment_id db)) ∧
  delete_deployment deployment_id (delete_deployment deployment_id db).2
  = (false, (delete_deployment deployment_id db).2).
Proof.
  unfold delete_deployment, read_deployment.
  cbn [fst snd db_deployment set_db_deployment].
  split; [by rewrite filter_id_deleted|]. split; [|split].
  - intros other Hne. by rewrite filter_id_after_delete.
  - rewrite bool_decide_eq_true.
    destruct (filter (λ d, dm_id d = deployment_id) (db_deployment db))
      as [|d l]; cbn; split; try lia; try (by intros [? [=]]); eauto.
  - rewrite filter_id_deleted, filter_delete_twice. done.
Qed.

Lemma lookup_deployment_None w deployment_id :
  deployment_id ∉ dep_id <$> deployment_table w →
  lookup_deployment w deployment_id = None.
Proof.
  unfold lookup_deployment. intros Hno.
  destruct (find _ _) as [d|] eqn:E; [|done].
  apply find_some in E as [Hin Hid]. apply bool_decide_eq_true in Hid.
  destruct Hno. rewrite <- Hid. apply list_elem_of_fmap_2.
  by apply list_elem_of_In.
Qed.

Lemma lookup_deployment_unique w d :
  NoDup (dep_id <$> deployment_table w) →
  d ∈ deployment_table w →
  lookup_deployment w (dep_id d) = Some d.
Proof.
  unfold lookup_deployment. intros Hnd Hin.
  destruct (find _ _) as [d'|] eqn:E.
  - apply find_some in E as [Hin' Hid]. apply bool_decide_eq_true in Hid.
    f_equal. apply (NoDup_fmap_eq dep_id (deployment_table w)); try done.
    by apply list_elem_of_In.
  - apply list_elem_of_In in Hin. apply (find_none _ _ E) in Hin.
    by apply bool_decide_eq_false in Hin.
Qed.

(** X15. Deleting a deployment stops its scheduling: on the deployment table
    [delete_deployment] leaves, [schedule_runs] for the deleted id returns
    the empty list and executes nothing but the [session.get]. *)
Theorem schedule_runs_after_delete
    settings deployment_id start_time end_time max_runs db w :
  schedule_runs settings deployment_id start_time end_time max_runs
    (with_deployments (delete_deployment deployment_id db).2 w)
  = (inr [],
     log (SessionGet deployment_id)
       (with_deployments (delete_deployment deployment_id db).2 w)).
Proof.
  rewrite schedule_runs_unfold.
  rewrite (bind_ok _ _ _ []
             (log (SessionGet deployment_id)
                (with_deployments (delete_deployment deployment_id db).2 w)));
    [done|].
  apply generate_short. left. apply lookup_deployment_None.
  unfold delete_deployment.
  cbn [snd with_deployments deployment_table db_deployment
         set_db_deployment].
  rewrite <- list_fmap_compose.
  intros (d & Hid & [Hne _]%list_elem_of_filter)%list_elem_of_fmap.
  by apply Hne.
Qed.

(** ** Listing and counting *)

Lemma existsb_elem_of {A} (f : A → bool) (l : list A) :
  existsb f l = true ↔ ∃ x, x ∈ l ∧ f x = true.
Proof.
  rewrite existsb_exists. by setoid_rewrite list_elem_of_In.
Qed.

Lemma apply_deployment_filters_stages db q ff frf trf df :
  _apply_deployment_filters db q ff frf trf df
  = _apply_deployment_filters db
      (_apply_deployment_filters db
         (_apply_deployment_filters db q None None None df)
         ff None None None)
      None frf trf None.
Proof. by destruct df, ff, frf, trf. Qed.

Lemma apply_deployment_filter_stage db q df d :
  _apply_deployment_filters db q None None None df d = true ↔
  q d = true ∧ ∀ f, df = Some f → f d = true.
Proof.
  destruct df as [f|]; cbn; unfold where_.
  - rewrite andb_true_iff. split.
    + intros [? ?]. split; [done|]. by intros ? [= <-].
    + intros [? Hf]. split; [done|]. by apply Hf.
  - split; [|by intros [? _]]. intros ?. split; [done|]. by intros ? [=].
Qed.

Lemma apply_flow_filter_stage db q ff d :
  _apply_deployment_filters db q ff None None None d = true ↔
  q d = true ∧
  ∀ f, ff = Some f →
       ∃ fl, fl ∈ db_flow db ∧ dm_flow_id d = fl_id fl ∧ f fl = true.
Proof.
  destruct ff as [f|]; cbn; unfold where_.
  - rewrite andb_true_iff, existsb_elem_of. split.
    + intros [? (fl & ? & [?%bool_decide_eq_true ?]%andb_true_iff)].
      split; [done|]. intros ? [= <-]. eauto.
    + intros [? Hf]. split; [done|].
      destruct (Hf f eq_refl) as (fl & ? & ? & ?). exists fl.
      split; [done|]. apply andb_true_iff. split; [|done].
      by apply bool_decide_eq_true.
  - split; [|by intros [? _]]. intros ?. split; [done|]. by intros ? [=].
Qed.

Lemma apply_run_filters_stage db q frf trf d :
  _apply_deployment_filters db q None frf trf None d = true ↔
  q d = true ∧
  (is_Some frf ∨ is_Some trf →
   ∃ fr, fr ∈ db_flow_run db ∧
         dm_id d = fr_deployment_id (row_run fr) ∧
         (∀ f, frf = Some f → f fr = true) ∧
         (∀ f, trf = Some f →
               ∃ tr, tr ∈ db_task_run db ∧
                     tr_flow_run_id tr = row_id fr ∧ f tr = true)).
Proof.
  destruct frf as [f|], trf as [g|]; cbn; unfold where_.
  - rewrite andb_true_iff, existsb_elem_of. split.
    + intros [? (fr & ? & [[?%bool_decide_eq_true ?]%andb_true_iff
                            (tr & ? & [?%bool_decide_eq_true ?]%andb_true_iff)
                            %existsb_elem_of]%andb_true_iff)].
      split; [done|]. intros _. exists fr. split; [done|]. split; [done|].
      split; [by intros ? [= <-]|]. intros ? [= <-]. eauto.
    + intros [? Hfr]. split; [done|].
      destruct Hfr as (fr & ? & ? & Hf & Hg); [by left; eauto|].
      destruct (Hg g eq_refl) as (tr & ? & ? & ?).
      exists fr. split; [done|]. rewrite !andb_true_iff, existsb_elem_of.
      split; [split; [by apply bool_decide_eq_true|by apply Hf]|].
      exists tr. split; [done|]. apply andb_true_iff.
      split; [by apply bool_decide_eq_true|done].
  - rewrite andb_true_iff, existsb_elem_of. split.
    + intros [? (fr & ? & [?%bool_decide_eq_true ?]%andb_true_iff)].
      split; [done|]. intros _. exists fr. split; [done|]. split; [done|].
      split; [by intros ? [= <-]|]. by intros ? [=].
    + intros [? Hfr]. split; [done|].
      destruct Hfr as (fr & ? & ? & Hf & _); [by left; eauto|].
      exists fr. split; [done|]. rewrite andb_true_iff.
      split; [by apply bool_decide_eq_true|by apply Hf].
  - rewrite andb_true_iff, existsb_elem_of. split.
    + intros [? (fr & ? & [?%bool_decide_eq_true
                            (tr & ? & [?%bool_decide_eq_true ?]%andb_true_iff)
                            %existsb_elem_of]%andb_true_iff)].
      split; [done|]. intros _. exists fr. split; [done|]. split; [done|].
      split; [by intros ? [=]|]. intros ? [= <-]. eauto.
    + intros [? Hfr]. split; [done|].
      destruct Hfr as (fr & ? & ? & _ & Hg); [by right; eauto|].
      destruct (Hg g eq_refl) as (tr & ? & ? & ?).
      exists fr. split; [done|]. rewrite andb_true_iff, existsb_elem_of.
      split; [by apply bool_decide_eq_true|].
      exists tr. split; [done|]. apply andb_true_iff.
      split; [by apply bool_decide_eq_true|done].
  - split; [|by intros [? _]]. intros ?. split; [done|].
    by intros [[? [=]]|[? [=]]].
Qed.

(** The query [_apply_deployment_filters] builds from the unfiltered one
    selects the deployments that match. *)
Lemma apply_deployment_filters_spec db ff frf trf df d :
  _apply_deployment_filters db (λ _, true) ff frf trf df d = true ↔
  deployment_matches db ff frf trf df d.
Proof.
  rewrite apply_deployment_filters_stages, apply_run_filters_stage,
    apply_flow_filter_stage, apply_deployment_filter_stage.
  unfold deployment_matches. tauto.
Qed.

Lemma unique_NoDup seen rows :
  NoDup (dm_id <$> rows) →
  (∀ d, d ∈ rows → dm_id d ∉ seen) →
  unique seen rows = rows.
Proof.
  revert seen. induction rows as [|d rows IH]; intros seen; [done|].
  rewrite fmap_cons. intros [Hd Hnd]%NoDup_cons Hseen. cbn.
  rewrite decide_False by (apply Hseen; left).
  f_equal. apply IH; [done|].
  intros d' Hd' [Heq|Hin]%elem_of_cons.
  - apply Hd. rewrite <- Heq. by apply list_elem_of_fmap_2.
  - by apply (Hseen d'); [right|].
Qed.

Lemma Sorted_drop {A} (R : relation A) n l : Sorted R l → Sorted R (drop n l).
Proof.
  revert l. induction n as [|n IH]; intros [|x l] Hl; cbn; try done.
  apply IH. by apply Sorted_inv in Hl as [? _].
Qed.

Lemma Sorted_take {A} (R : relation A) n l : Sorted R l → Sorted R (take n l).
Proof.
  revert n. induction l as [|x l IH]; intros [|n] Hl; cbn; try done.
  apply Sorted_inv in Hl as [Hl Hhd]. constructor; [by apply IH|].
  destruct Hhd as [|y l' Hxy]; [by destruct n|].
  destruct n; cbn; by constructor.
Qed.

Global Instance by_name_total (name_le : relation string) `{!Total name_le} :
  Total (by_name name_le).
Proof. intros d1 d2. unfold by_name. apply total, _. Qed.

(** The rows a listing query selects, before ordering and paging. *)
Lemma selected_rows_ids db (query : DeploymentModel → bool) :
  NoDup (dm_id <$> db_deployment db) →
  NoDup (dm_id <$> filter (λ d, query d = true) (db_deployment db)).
Proof.
  intros Hnd. apply (sublist_NoDup _ (dm_id <$> db_deployment db)); [done|].
  apply fmap_sublist, sublist_filter.
Qed.

Lemma page_unique (name_le : relation string) `{!RelDecision name_le}
    (offset limit : option nat) (rows : list DeploymentModel) :
  NoDup (dm_id <$> rows) →
  unique []
    (match limit with
     | Some l =>
         take l (match offset with
                 | Some o => drop o (merge_sort (by_name name_le) rows)
                 | None => merge_sort (by_name name_le) rows
                 end)
     | None =>
         match offset with
         | Some o => drop o (merge_sort (by_name name_le) rows)
         | None => merge_sort (by_name name_le) rows
         end
     end)
  = match limit with
    | Some l =>
        take l (match offset with
                | Some o => drop o (merge_sort (by_name name_le) rows)
                | None => merge_sort (by_name name_le) rows
                end)
    | None =>
        match offset with
        | Some o => drop o (merge_sort (by_name name_le) rows)
        | None => merge_sort (by_name name_le) rows
        end
    end.
Proof.
  intros Hnd. apply unique_NoDup; [|by intros ? _ ?%elem_of_nil].
  apply (sublist_NoDup _ (dm_id <$> merge_sort (by_name name_le) rows)).
  - by rewrite merge_sort_Permutation.
  - apply fmap_sublist.
    destruct limit as [l|], offset as [o|].
    + etrans; [apply sublist_take|apply sublist_drop].
    + apply sublist_take.
    + apply sublist_drop.
    + done.
Qed.

(** X16. When ids are unique and the collation is a total order,
    [read_deployments] without offset and limit returns, each once and
    sorted by name, exactly the stored deployments that pass the filters
    given: the deployment filter holds of the deployment; the flow filter of
    its flow; and, if a flow run or task run filter is given, some flow run
    of the deployment passes the flow run filter and has a task run passing
    the task run filter. *)
Theorem read_deployments_lists_matches
    (name_le : relation string) `{!RelDecision name_le} `{!Total name_le}
    ff frf trf df db :
  NoDup (dm_id <$> db_deployment db) →
  Sorted (by_name name_le)
         (read_deployments name_le None None ff frf trf df db) ∧
  NoDup (dm_id <$> read_deployments name_le None None ff frf trf df db) ∧
  ∀ d, d ∈ read_deployments name_le None None ff frf trf df db ↔
       d ∈ db_deployment db ∧ deployment_matches db ff frf trf df d.
Proof.
  intros Hnd. unfold read_deployments.
  rewrite (page_unique name_le None None) by (by apply selected_rows_ids).
  split; [apply (Sorted_merge_sort _)|]. split.
  - rewrite merge_sort_Permutation. by apply selected_rows_ids.
  - intros d. rewrite merge_sort_Permutation, list_elem_of_filter.
    rewrite apply_deployment_filters_spec. tauto.
Qed.

Lemma read_deployments_lists_matches_witness :
  Sorted (by_name String.le)
         (read_deployments String.le None None (Some (λ fl, true)) None
            (Some (λ tr, true)) None db0) ∧
  NoDup (dm_id <$> read_deployments String.le None None (Some (λ fl, true))
                     None (Some (λ tr, true)) None db0) ∧
  ∀ d, d ∈ read_deployments String.le None None (Some (λ fl, true)) None
             (Some (λ tr, true)) None db0 ↔
       d ∈ db_deployment db0 ∧
       deployment_matches db0 (Some (λ fl, true)) None (Some (λ tr, true))
         None d.
Proof.
  apply (read_deployments_lists_matches String.le).
  apply (bool_decide_unpack _). vm_compute. exact I.
Defined.

(** X17. When ids are unique, [count_deployments] is the number of
    deployments [read_deployments] returns with the same filters and no
    offset or limit. *)
Theorem count_deployments_is_length_of_listing
    (name_le : relation string) `{!RelDecision name_le} ff frf trf df db :
  NoDup (dm_id <$> db_deployment db) →
  count_deployments ff frf trf df db
  = length (read_deployments name_le None None ff frf trf df db).
Proof.
  intros Hnd. unfold read_deployments, count_deployments.
  rewrite (page_unique name_le None None) by (by apply selected_rows_ids).
  by rewrite merge_sort_Permutation.
Qed.

Lemma count_deployments_is_length_of_listing_witness :
  count_deployments None None None (Some (λ d, dm_is_schedule_active d)) db0
  = length (read_deployments String.le None None None None None
              (Some (λ d, dm_is_schedule_active d)) db0).
Proof.
  apply (count_deployments_is_length_of_listing String.le).
  apply (bool_decide_unpack _). vm_compute. exact I.
Defined.

(** X18. A page of [read_deployments]: with offset [o] (0 if omitted) and
    limit [l], for [n] deployments passing the filters, it returns
    [min l (n - o)] deployments, [n - o] without a limit, so none once the
    offset reaches the count; they are sorted by name and each is a stored
    deployment that passes the filters. Ids are unique and the collation is
    a total order. *)
Theorem read_deployments_page
    (name_le : relation string) `{!RelDecision name_le} `{!Total name_le}
    offset limit ff frf trf df db :
  NoDup (dm_id <$> db_deployment db) →
  length (read_deployments name_le offset limit ff frf trf df db)
  = match limit with
    | Some l => l `min` (count_deployments ff frf trf df db - default 0 offset)
    | None => count_deployments ff frf trf df db - default 0 offset
    end%nat ∧
  Sorted (by_name name_le)
         (read_deployments name_le offset limit ff frf trf df db) ∧
  Forall (λ d, d ∈ db_deployment db ∧ deployment_matches db ff frf trf df d)
         (read_deployments name_le offset limit ff frf trf df db).
Proof.
  intros Hnd. unfold read_deployments, count_deployments.
  rewrite (page_unique name_le offset limit) by (by apply selected_rows_ids).
  set (rows := filter _ (db_deployment db)).
  pose proof (Sorted_merge_sort (by_name name_le) rows) as Hsorted.
  assert (length (merge_sort (by_name name_le) rows) = length rows) as Hlen
    by (by rewrite merge_sort_Permutation).
  split; [|split].
  - destruct limit as [l|], offset as [o|]; unfold default; cbn [from_option];
      rewrite ?length_take, ?length_drop, Hlen; unfold id; lia.
  - destruct limit as [l|], offset as [o|];
      auto using Sorted_take, Sorted_drop.
  - apply Forall_forall. intros d Hd.
    assert (d ∈ merge_sort (by_name name_le) rows) as Hin.
    { destruct limit as [l|], offset as [o|]; try done.
      - by eapply subseteq_drop, subseteq_take.
      - by eapply subseteq_take.
      - by eapply subseteq_drop. }
    rewrite merge_sort_Permutation in Hin. unfold rows in Hin.
    apply list_elem_of_filter in Hin as [Hq ?].
    by apply apply_deployment_filters_spec in Hq.
Qed.

Lemma read_deployments_page_witness :
  length (read_deployments String.le (Some 1%nat) (Some 5%nat) None None None
            None db0)
  = (5 `min` (count_deployments None None None None db0
              - default 0 (Some 1)))%nat ∧
  Sorted (by_name String.le)
         (read_deployments String.le (Some 1%nat) (Some 5%nat) None None None
            None db0) ∧
  Forall (λ d, d ∈ db_deployment db0 ∧
               deployment_matches db0 None None None None d)
         (read_deployments String.le (Some 1%nat) (Some 5%nat) None None None
            None db0).
Proof.
  apply (read_deployments_page String.le (Some 1%nat) (Some 5%nat)).
  apply (bool_decide_unpack _). vm_compute. exact I.
Defined.

Example read_deployments_sorted_by_name :
  dm_name <$> read_deployments String.le None None None None None None db0
  = ["adhoc"; "nightly"; "train"] ∧
  dm_name <$> read_deployments String.le (Some 1%nat) (Some 5%nat) None None
                None None db0
  = ["nightly"; "train"] ∧
  dm_name <$> read_deployments String.le None None (Some (λ fl,
                bool_decide (fl_name fl = "etl"))) None
                (Some (λ tr, bool_decide (tr_name tr = "extract"))) None db0
  = ["nightly"].
Proof. repeat split; vm_compute; reflexivity. Qed.

(** ** Reading by name *)

Lemma elem_of_deployment_join_flow db d fl :
  (d, fl) ∈ deployment_join_flow db ↔
  d ∈ db_deployment db ∧ fl ∈ db_flow db ∧ dm_flow_id d = fl_id fl.
Proof.
  unfold deployment_join_flow. rewrite list_elem_of_bind. split.
  - intros (d0 & (fl0 & Heq & [? ?]%list_elem_of_filter)%list_elem_of_fmap
            & ?).
    injection Heq as -> ->. done.
  - intros (? & ? & ?). exists d. split; [|done].
    apply list_elem_of_fmap. exists fl. split; [done|].
    by apply list_elem_of_filter.
Qed.

Lemma read_deployment_by_name_Some name flow_name db d :
  read_deployment_by_name name flow_name db = Some d →
  d ∈ db_deployment db ∧ dm_name d = name ∧
  ∃ fl, fl ∈ db_flow db ∧ fl_id fl = dm_flow_id d ∧ fl_name fl = flow_name.
Proof.
  unfold read_deployment_by_name.
  destruct (head (filter _ (deployment_join_flow db))) as [[d0 fl]|] eqn:E;
    [|done].
  cbn. intros [= <-]. apply head_Some in E as (rest & E).
  assert ((d0, fl) ∈ filter (λ p : DeploymentModel * Flow,
                               fl_name p.2 = flow_name ∧ dm_name p.1 = name)
                            (deployment_join_flow db))
    as [[? ?] (? & ? & ?)%elem_of_deployment_join_flow]%list_elem_of_filter
    by (rewrite E; left).
  split; [done|]. split; [done|]. by exists fl.
Qed.

Lemma read_deployment_by_name_None name flow_name db d fl :
  read_deployment_by_name name flow_name db = None →
  d ∈ db_deployment db → fl ∈ db_flow db →
  dm_flow_id d = fl_id fl → dm_name d = name →
  fl_name fl ≠ flow_name.
Proof.
  unfold read_deployment_by_name.
  destruct (head (filter _ (deployment_join_flow db))) as [p|] eqn:E;
    [done|].
  intros _ Hd Hfl Hjoin Hname Hflow.
  apply (proj1 (head_filter_None _ _) E (d, fl)); [|done].
  by apply elem_of_deployment_join_flow.
Qed.

(** X19. [read_deployment_by_name] returns a stored deployment of the given
    name whose flow is stored under the given flow name, and returns nothing
    only when no stored deployment of that name belongs to a flow of that
    name. *)
Theorem read_deployment_by_name_finds (name flow_name : string) db :
  match read_deployment_by_name name flow_name db with
  | Some d =>
      d ∈ db_deployment db ∧ dm_name d = name ∧
      ∃ fl, fl ∈ db_flow db ∧ fl_id fl = dm_flow_id d ∧
            fl_name fl = flow_name
  | None =>
      ∀ d fl, d ∈ db_deployment db → fl ∈ db_flow db →
              dm_flow_id d = fl_id fl → dm_name d = name →
              fl_name fl ≠ flow_name
  end.
Proof.
  destruct (read_deployment_by_name name flow_name db) as [d|] eqn:E.
  - by apply (read_deployment_by_name_Some name flow_name).
  - intros d fl. by apply read_deployment_by_name_None.
Qed.

Lemma create_deployment_keeps_keys {K} `{EqDecision K}
    (cols : DeploymentModel → K) d db o db' :
  upsert_on_flow_and_name cols →
  NoDup (by_flow_and_name <$> db_deployment db) →
  create_deployment cols d db = (inr o, db') →
  NoDup (by_flow_and_name <$> db_deployment db').
Proof.
  intros Hcols Hkeys Hcreate.
  destruct (create_deployment_cases cols Hcols d db)
    as [(pre & old & post & Htab & _ & _ & Heq)
       |[(Hnew & _ & Heq)|(_ & _ & Heq)]];
    rewrite Heq in Hcreate; pair_inv Hcreate;
    cbn [db_deployment set_db_deployment].
  - rewrite Htab in Hkeys. by rewrite fmap_app, fmap_cons in *.
  - rewrite fmap_app. apply NoDup_app. split; [done|].
    split; [|apply NoDup_singleton].
    intros k (y & Hk & Hy)%list_elem_of_fmap Hk'%list_elem_of_singleton.
    apply Hnew. rewrite Hk in Hk'. injection Hk' as Hflow Hname.
    assert (cols y = cols d) as <- by (by apply Hcols).
    by apply list_elem_of_fmap_2.
Qed.

Lemma create_deployment_returns_stored {K} `{EqDecision K}
    (cols : DeploymentModel → K) d db row db' :
  upsert_on_flow_and_name cols →
  create_deployment cols d db = (inr (Some row), db') →
  row ∈ db_deployment db' ∧
  db_flow db' = db_flow db ∧
  dm_flow_id row = dm_flow_id d ∧
  dm_name row = dm_name d ∧
  dm_schedule row = dm_schedule d ∧
  dm_is_schedule_active row = dm_is_schedule_active d.
Proof.
  intros Hcols Hcreate.
  destruct (create_deployment_cases cols Hcols d db)
    as [(pre & old & post & Htab & Hold & _ & Heq)
       |[(_ & _ & Heq)|(_ & _ & Heq)]];
    rewrite Heq in Hcreate; pair_inv Hcreate;
    cbn [db_deployment set_db_deployment db_flow].
  - split; [rewrite elem_of_app; right; left|].
    apply Hcols in Hold as [? ?]. done.
  - split; [rewrite elem_of_app; right; left|done].
Qed.

(** X20. Round trip by name: when no two stored deployments share flow and
    name and no two stored flows share a name, the row [create_deployment]
    returns is the one [read_deployment_by_name] finds afterwards under the
    deployment's name and the name of its flow, provided that flow is
    stored. *)
Theorem read_deployment_by_name_after_create {K} `{EqDecision K}
    (cols : DeploymentModel → K) d db row db' fl :
  upsert_on_flow_and_name cols →
  NoDup (by_flow_and_name <$> db_deployment db) →
  NoDup (fl_name <$> db_flow db) →
  fl ∈ db_flow db →
  fl_id fl = dm_flow_id d →
  create_deployment cols d db = (inr (Some row), db') →
  read_deployment_by_name (dm_name d) (fl_name fl) db' = Some row.
Proof.
  intros Hcols Hkeys Hnames Hfl Hflow Hcreate.
  pose proof (create_deployment_keeps_keys cols d db _ db' Hcols Hkeys
                Hcreate) as Hkeys'.
  destruct (create_deployment_returns_stored cols d db row db' Hcols Hcreate)
    as (Hrow & Hflows & Hrf & Hrn & _).
  destruct (read_deployment_by_name _ _ db') as [d0|] eqn:Hread.
  - apply read_deployment_by_name_Some in Hread
      as (Hd0 & Hname & fl0 & Hfl0 & Hid0 & Hfn0).
    f_equal. apply (NoDup_fmap_eq by_flow_and_name (db_deployment db'));
      try done.
    unfold by_flow_and_name. rewrite Hname, Hrn, Hrf, <- Hid0, <- Hflow.
    do 2 f_equal. rewrite Hflows in Hfl0.
    by apply (NoDup_fmap_eq fl_name (db_flow db)).
  - destruct (read_deployment_by_name_None _ _ _ row fl Hread);
      try done; [by rewrite Hflows|congruence].
Qed.

Lemma read_deployment_by_name_after_create_witness :
  read_deployment_by_name (dm_name model_report) (fl_name flow_ml)
    (create_deployment by_flow_and_name model_report db0).2
  = Some (set_updated 50 model_report).
Proof.
  apply (read_deployment_by_name_after_create by_flow_and_name model_report
           db0 (set_updated 50 model_report) _ flow_ml).
  - apply by_flow_and_name_spec.
  - apply (bool_decide_unpack _). vm_compute. exact I.
  - apply (bool_decide_unpack _). vm_compute. exact I.
  - right. left.
  - reflexivity.
  - reflexivity.
Defined.

(** ** Creating, then scheduling *)

Lemma schedule_runs_all_new
    settings deployment_id start_time end_time max_runs w d sch f :
  fresh_ids w →
  lookup_deployment w deployment_id = Some d →
  dep_schedule d = Some sch →
  dep_is_schedule_active d = true →
  dep_flow_id d = Some f →
  NoDup (get_dates sch
           (default (scheduler_max_runs settings) max_runs)
           (default (clock w) start_time)
           (default (default (clock w) start_time
                     + scheduler_max_scheduled_time settings) end_time)) →
  (∀ date, scheduled_key (dep_id d) date ∉ row_key <$> flow_run_table w) →
  ∃ w',
    schedule_runs settings deployment_id start_time end_time max_runs w
    = (inr (candidates_from d deployment_id f (uuid_source w)
              (get_dates sch
                 (default (scheduler_max_runs settings) max_runs)
                 (default (clock w) start_time)
                 (default (default (clock w) start_time
                           + scheduler_max_scheduled_time settings)
                          end_time))),
       w').
Proof.
  intros Hw Hl Hs Ha Hf Hnd Hnew.
  set (n := default (scheduler_max_runs settings) max_runs) in *.
  set (s := default (clock w) start_time) in *.
  set (e := default (s + scheduler_max_scheduled_time settings) end_time)
    in *.
  set (dates := get_dates sch n s e) in *.
  pose proof (generate_active deployment_id s e n w d sch f Hl Hs Ha Hf)
    as Hgen.
  fold dates in Hgen.
  destruct (generate_fresh _ _ _ _ _ _ _ Hw Hgen) as [Hwg Hruns].
  destruct (persister_total_fresh _ _ Hwg Hruns) as (w' & Hins).
  revert Hins. world_simpl. rewrite accepted_all.
  - intros Hins. exists w'.
    rewrite schedule_runs_unfold. erewrite bind_ok by exact Hgen.
    exact Hins.
  - unfold flow_run_unique_upsert_columns. rewrite candidates_from_keys.
    apply (NoDup_fmap_2 _). exact Hnd.
  - intros r (date & Hdate & -> & _)%elem_of_candidates_from. apply Hnew.
Qed.

(** X21. Creating, then scheduling: after [create_deployment] of a
    deployment with an active schedule, on a database with unique ids,
    [schedule_runs] for the id of the row returned, with fresh identifiers
    and no run stored yet, returns one run per timestamp that the schedule
    passed to [create_deployment] yields, in order (the enumerator yielding
    no timestamp twice), each for the flow of the deployment. *)
Theorem schedule_runs_after_create {K} `{EqDecision K}
    (cols : DeploymentModel → K) d db row db' sch
    settings start_time end_time max_runs w :
  upsert_on_flow_and_name cols →
  NoDup (dm_id <$> db_deployment db) →
  create_deployment cols d db = (inr (Some row), db') →
  dm_schedule d = Some sch →
  dm_is_schedule_active d = true →
  fresh_ids w →
  flow_run_table w = [] →
  NoDup (get_dates sch
           (default (scheduler_max_runs settings) max_runs)
           (default (clock w) start_time)
           (default (default (clock w) start_time
                     + scheduler_max_scheduled_time settings) end_time)) →
  ∃ rs w',
    schedule_runs settings (dm_id row) start_time end_time max_runs
      (with_deployments db' w)
    = (inr rs, w') ∧
    fr_next_scheduled_start_time <$> rs
    = get_dates sch
        (default (scheduler_max_runs settings) max_runs)
        (default (clock w) start_time)
        (default (default (clock w) start_time
                  + scheduler_max_scheduled_time settings) end_time) ∧
    Forall (λ r, fr_flow_id r = dm_flow_id d ∧
                 fr_deployment_id r = dm_id row) rs.
Proof.
  intros Hcols Hids Hcreate Hsch Hactive Hw Hempty Hnd.
  pose proof (create_deployment_keeps_ids cols d db _ db' Hcols Hids Hcreate)
    as Hids'.
  destruct (create_deployment_returns_stored cols d db row db' Hcols Hcreate)
    as (Hrow & _ & Hrf & _ & Hrs & Hra).
  assert (lookup_deployment (with_deployments db' w) (dm_id row)
          = Some (snapshot row)) as Hl.
  { apply (lookup_deployment_unique (with_deployments db' w) (snapshot row)).
    - cbn [with_deployments deployment_table].
      rewrite <- list_fmap_compose. exact Hids'.
    - by apply list_elem_of_fmap_2. }
  destruct (schedule_runs_all_new settings (dm_id row) start_time end_time
              max_runs (with_deployments db' w) (snapshot row) sch
              (dm_flow_id row)) as (w' & Hrun); try done.
  - cbn. congruence.
  - cbn. congruence.
  - cbn [with_deployments flow_run_table]. rewrite Hempty.
    by intros ? ?%elem_of_nil.
  - eexists _, w'. split; [exact Hrun|]. split.
    + apply candidates_from_dates.
    + apply Forall_forall.
      intros r (date & _ & -> & _)%elem_of_candidates_from. cbn.
      by rewrite Hrf.
Qed.

Lemma schedule_runs_after_create_witness :
  ∃ rs w',
    schedule_runs settings0 (dm_id (set_updated 50 model_report))
      (Some 0) (Some 1000) None
      (with_deployments (create_deployment by_flow_and_name model_report
                           db0).2 world0)
    = (inr rs, w') ∧
    fr_next_scheduled_start_time <$> rs
    = get_dates (dates_schedule [100; 200])
        (default (scheduler_max_runs settings0) None)
        (default (clock world0) (Some 0))
        (default (default (clock world0) (Some 0)
                  + scheduler_max_scheduled_time settings0) (Some 1000)) ∧
    Forall (λ r, fr_flow_id r = dm_flow_id model_report ∧
                 fr_deployment_id r = dm_id (set_updated 50 model_report)) rs.
Proof.
  apply (schedule_runs_after_create by_flow_and_name model_report db0
           (set_updated 50 model_report) _ (dates_schedule [100; 200])
           settings0 (Some 0) (Some 1000) None world0).
  - apply by_flow_and_name_spec.
  - apply (bool_decide_unpack _). vm_compute. exact I.
  - reflexivity.
  - reflexivity.
  - reflexivity.
  - apply fresh_idsb_sound. reflexivity.
  - reflexivity.
  - apply (bool_decide_unpack _). vm_compute. exact I.
Defined.

Example delete_then_list :
  (delete_deployment 7 db0).1 = true ∧
  dm_name <$> read_deployments String.le None None None None None None
                (delete_deployment 7 db0).2
  = ["adhoc"; "train"] ∧
  (delete_deployment 40 db0).1 = false.
Proof. repeat split; vm_compute; reflexivity. Qed.

Example upsert_keeps_identity :
  (λ d, (dm_id d, dm_name d, dm_flow_data d, dm_created d, dm_updated d))
    <$> db_deployment (create_deployment by_flow_and_name model_nightly_v2
                         db0).2
  = [(7%nat, "nightly", "v2", 10, 50); (8%nat, "adhoc", "v1", 20, 20);
     (9%nat, "train", "v3", 30, 30)].
Proof. vm_compute. reflexivity. Qed.
